(** * A basic GAN on Fashion-MNIST: the notebook's networks, losses and
    training loop, embedded over exact real arithmetic.

    Source: [GAN_PyTorch_HandsOn_Final.ipynb].  Tensor entries are real
    numbers (the idealisation of the float32 values PyTorch computes);
    shapes, exceptions, the autograd graph, parameter cells, the random
    stream and the Adam optimizer state are explicit.  Library layers
    ([nn.Linear], [nn.BatchNorm1d], ...) follow their documented forward
    semantics in training mode: the notebook never calls [.eval()]. *)

From Stdlib Require Import Reals Lra Lia List Permutation String.
From stdpp Require Import gmap.

Set Warnings "-register-all,-clear-no-such-hyp,-abstract-large-number".
Set Default Proof Using "Type".

(** ** Scalars *)

Definition rsum (v : list R) : R := foldr Rplus 0%R v.

Definition mean (v : list R) : R := (rsum v / INR (length v))%R.

(** [torch.sigmoid] *)
Definition sigmoid (x : R) : R := (1 / (1 + exp (- x)))%R.

(** [nn.LeakyReLU]: max(0,x) + negative_slope * min(0,x) *)
Definition leaky_relu (negative_slope x : R) : R :=
  (Rmax 0 x + negative_slope * Rmin 0 x)%R.

(** one term of [nn.BCEWithLogitsLoss]:
    -(y log sigma(x) + (1-y) log (1 - sigma(x))) *)
Definition bce_with_logits (x y : R) : R :=
  (- (y * ln (sigmoid x) + (1 - y) * ln (1 - sigmoid x)))%R.

(** ** Tensors *)

(** Activations of shape [batch, features]: a list of rows. *)
Abbreviation Matrix := (list (list R)).

(** An image of shape [channels, height, width]. *)
Abbreviation Image := (list (list (list R))).

(** Parameter tensors: a shape and a flat row-major storage. *)
Record Tensor := mkTensor { shape : list nat; storage : list R }.

Definition full (sh : list nat) (v : R) : Tensor :=
  mkTensor sh (replicate (foldr Nat.mul 1 sh) v).

Definition zeros_like (t : Tensor) : Tensor :=
  mkTensor (shape t) (map (fun _ => 0%R) (storage t)).

(** element [j] of a one-dimensional tensor *)
Definition get1 (t : Tensor) (j : nat) : R := nth j (storage t) 0%R.

(** element [j, i] of a two-dimensional tensor with [ncols] columns *)
Definition get2 (t : Tensor) (ncols j i : nat) : R :=
  nth (j * ncols + i) (storage t) 0%R.

(** In-place binary operation [dst.op_(src)]: the destination keeps its
    shape, every element is combined with the one at the same offset. *)
Definition inplace2 (f : R -> R -> R) (dst src : Tensor) : Tensor :=
  mkTensor (shape dst) (imap (fun k a => f a (nth k (storage src) 0%R)) (storage dst)).

Definition zeros_like_m (m : Matrix) : Matrix := map (map (fun _ => 0%R)) m.
Definition ones_like_m (m : Matrix) : Matrix := map (map (fun _ => 1%R)) m.

Definition column (c : nat) (m : Matrix) : list R := map (fun r => nth c r 0%R) m.

(** [is_batch B d m]: [m] has shape [B, d]. *)
Definition is_batch (B d : nat) (m : Matrix) : Prop :=
  length m = B /\ Forall (fun r => length r = d) m.

Definition row_lengths_ok (d : nat) (m : Matrix) : bool :=
  forallb (fun r => Nat.eqb (length r) d) m.

(** ** Functional kernels ([torch.nn.functional]) *)

(** [F.linear(x, W, b)] = x W^T + b, with W of shape [out, in]. *)
Definition F_linear (W b : Tensor) (in_features out_features : nat) (x : Matrix) : Matrix :=
  map (fun r =>
         map (fun j => (rsum (imap (fun i xi => xi * get2 W in_features j i) r) + get1 b j)%R)
             (seq 0 out_features)) x.

Definition bn_eps : R := (1 / 100000)%R.

Definition batch_mean (c : nat) (x : Matrix) : R := mean (column c x).

(** biased variance, as used for normalisation in training mode *)
Definition batch_var (c : nat) (x : Matrix) : R :=
  mean (map (fun v => ((v - batch_mean c x) * (v - batch_mean c x))%R) (column c x)).

(** [F.batch_norm(x, ..., training=True)] on a [batch, features] input *)
Definition F_batch_norm (gamma beta : Tensor) (x : Matrix) : Matrix :=
  map (fun r =>
         imap (fun c v =>
                 ((v - batch_mean c x) / sqrt (batch_var c x + bn_eps) * get1 gamma c
                  + get1 beta c)%R) r) x.

Definition F_leaky_relu (negative_slope : R) (x : Matrix) : Matrix :=
  map (map (leaky_relu negative_slope)) x.

Definition F_sigmoid (x : Matrix) : Matrix := map (map sigmoid) x.

Definition numel (x : Matrix) : nat := length (concat x).

(** [nn.BCEWithLogitsLoss()] with the default reduction ['mean'] *)
Definition F_bce_with_logits (input target : Matrix) : R :=
  mean (concat (zip_with (zip_with bce_with_logits) input target)).

(** ** Autograd graph *)

Abbreviation loc := nat (only parsing).

(** The graph hanging off a tensor's [grad_fn]: constants and detached
    tensors carry [NoGrad], a parameter is an [AccumulateGrad] leaf, every
    differentiable operation records its name, the tensors it saved for
    the backward pass and the graphs of its inputs. *)
Inductive Graph :=
| NoGrad
| AccumulateGrad (p : loc)
| GradFn (name : string) (saved : list Matrix) (next_functions : list Graph).

(** the parameters that [backward()] reaches from a graph *)
Fixpoint leaves (g : Graph) : gset loc :=
  match g with
  | NoGrad => ∅
  | AccumulateGrad p => {[ p ]}
  | GradFn _ _ gs => ⋃ (map leaves gs)
  end.

Record Var := mkVar { value : Matrix; grad_fn : Graph }.

(** zero-dimensional tensors (losses) *)
Record Scalar := mkScalar { item : R; scalar_grad_fn : Graph }.

(** [x.detach()] *)
Definition detach (x : Var) : Var := mkVar (value x) NoGrad.

(** a tensor that does not require grad (data, noise, targets) *)
Definition constant (m : Matrix) : Var := mkVar m NoGrad.

(** ** Parameter cells, the world and exceptions *)

Record Param := mkParam { data : Tensor; grad : option Tensor }.

(** [rng] is the position reached in the device's random stream;
    [next_loc] is the next fresh parameter address. *)
Record World := mkWorld { heap : gmap loc Param; next_loc : loc; rng : nat }.

Inductive Exn :=
| ValueError (msg : string)
| RuntimeError (msg : string)
| NameError (name : string)
| ZeroDivisionError.

Inductive Result (A : Type) :=
| Ok (a : A) (w : World)
| Raise (e : Exn).
Arguments Ok {A} a w.
Arguments Raise {A} e.

Definition M (A : Type) : Type := World -> Result A.

Definition ret {A} (a : A) : M A := fun w => Ok a w.

Definition bind {A B} (m : M A) (k : A -> M B) : M B :=
  fun w => match m w with
           | Ok a w' => k a w'
           | Raise e => Raise e
           end.

Definition raise {A} (e : Exn) : M A := fun _ => Raise e.

Notation "'let*' x ':=' m 'in' k" := (bind m (fun x => k))
  (at level 10, x name, m at level 100, k at level 200).
Notation "'let*' ' p ':=' m 'in' k" := (bind m (fun x => let 'p := x in k))
  (at level 10, p pattern, m at level 100, k at level 200).

#[global] Instance Param_inhabited : Inhabited Param :=
  populate (mkParam (mkTensor [] []) None).

(** read the data of a parameter cell *)
Definition deref (w : World) (p : loc) : Tensor := data (heap w !!! p).

(** [w'] is [w] after some allocations: no cell of [w] has gone, and
    every location handed out in between holds a cell *)
Definition grows (w w' : World) : Prop :=
  next_loc w <= next_loc w'
  /\ (forall p, is_Some (heap w !! p) -> is_Some (heap w' !! p))
  /\ (forall p, next_loc w <= p < next_loc w' -> is_Some (heap w' !! p)).

(** [nn.Parameter(t)]: a fresh cell, no gradient yet *)
Definition new_parameter (t : Tensor) : M loc :=
  fun w => Ok (next_loc w)
              (mkWorld (<[next_loc w := mkParam t None]> (heap w)) (S (next_loc w)) (rng w)).

(** ** Modules *)

Inductive Layer :=
| Linear (weight bias : loc) (in_features out_features : nat)
| BatchNorm1d (weight bias : loc) (num_features : nat)
| LeakyReLU (negative_slope : R)
| Dropout (p : R)
| Sigmoid
| Sequential (modules : list Layer).

(** [module.parameters()], in registration order *)
Fixpoint parameters (l : Layer) : list loc :=
  match l with
  | Linear W b _ _ => [W; b]
  | BatchNorm1d g b _ => [g; b]
  | LeakyReLU _ | Dropout _ | Sigmoid => []
  | Sequential ms => concat (map parameters ms)
  end.

(** Feature width after a module applied to rows of width [d]; [None]
    when the module rejects that width. *)
Fixpoint out_dim (l : Layer) (d : nat) : option nat :=
  match l with
  | Linear _ _ i o => if d =? i then Some o else None
  | BatchNorm1d _ _ n => if d =? n then Some d else None
  | LeakyReLU _ | Dropout _ | Sigmoid => Some d
  | Sequential ms =>
      (fix run (ms : list Layer) (d : nat) {struct ms} : option nat :=
         match ms with
         | [] => Some d
         | m :: ms' => match out_dim m d with Some d' => run ms' d' | None => None end
         end) ms d
  end.

Fixpoint out_dim_all (ms : list Layer) (d : nat) : option nat :=
  match ms with
  | [] => Some d
  | m :: ms' => match out_dim m d with Some d' => out_dim_all ms' d' | None => None end
  end.

(** does the module contain a batch normalisation? *)
Fixpoint has_batch_norm (l : Layer) : bool :=
  match l with
  | BatchNorm1d _ _ _ => true
  | Linear _ _ _ _ | LeakyReLU _ | Dropout _ | Sigmoid => false
  | Sequential ms => existsb has_batch_norm ms
  end.

(** does the module act on every example of the batch independently and
    without drawing random numbers? *)
Fixpoint per_example (l : Layer) : bool :=
  match l with
  | Linear _ _ _ _ | LeakyReLU _ | Sigmoid => true
  | BatchNorm1d _ _ _ | Dropout _ => false
  | Sequential ms => forallb per_example ms
  end.

(** ** The module trees the constructors build

    [n] is the address of the first parameter. *)

Definition generator_block_at (n input_dim output_dim : nat) : Layer :=
  Sequential [Linear n (n + 1) input_dim output_dim;
              BatchNorm1d (n + 2) (n + 3) output_dim;
              LeakyReLU (2 / 10)%R; Dropout (3 / 10)%R].

Definition generator_modules_at (n z_dim img_dim hidden_dim : nat) : list Layer :=
  [generator_block_at n z_dim hidden_dim;
   generator_block_at (n + 4) hidden_dim (hidden_dim * 2);
   generator_block_at (n + 8) (hidden_dim * 2) (hidden_dim * 4);
   generator_block_at (n + 12) (hidden_dim * 4) (hidden_dim * 8);
   Linear (n + 16) (n + 17) (hidden_dim * 8) img_dim;
   Sigmoid].

Definition discriminator_block_at (n input_dim output_dim : nat) : Layer :=
  Sequential [Linear n (n + 1) input_dim output_dim; LeakyReLU (2 / 10)%R].

Definition discriminator_modules_at (n img_dim hidden_dim : nat) : list Layer :=
  [discriminator_block_at n img_dim (hidden_dim * 4);
   discriminator_block_at (n + 2) (hidden_dim * 4) (hidden_dim * 2);
   discriminator_block_at (n + 4) (hidden_dim * 2) hidden_dim;
   Linear (n + 6) (n + 7) hidden_dim 1].

(** ** Running sums that restart after every display step

    [running_sums display_step k acc xs]: the values appended to a loss
    list by the steps numbered [k], [k+1], ..., when the accumulator
    holds [acc] before step [k] and the steps add [xs]. *)
Fixpoint running_sums (display_step k : nat) (acc : R) (xs : list R) : list R :=
  match xs with
  | [] => []
  | x :: xs' =>
      (acc + x)%R
        :: running_sums display_step (S k)
                        (if k mod display_step =? 0 then 0%R else (acc + x)%R) xs'
  end.

(** the accumulator left after those steps *)
Fixpoint running_acc (display_step k : nat) (acc : R) (xs : list R) : R :=
  match xs with
  | [] => acc
  | x :: xs' =>
      running_acc display_step (S k)
                  (if k mod display_step =? 0 then 0%R else (acc + x)%R) xs'
  end.

(** index of the first step whose loss is part of the sum stored by
    step [k]: the step after the latest display before [k] *)
Definition window_start (display_step k : nat) : nat :=
  match k with
  | 0 => 0
  | S k' => (k' / display_step) * display_step + 1
  end.

(** left-to-right sum of [xs[i], ..., xs[k]], starting from zero *)
Definition window_sum (xs : list R) (i k : nat) : R :=
  fold_left Rplus (firstn (S k - i) (skipn i xs)) 0%R.

(** the numbers of the steps, among the first [total], at which the loop
    reports and takes a snapshot: the multiples of [display_step] *)
Definition display_steps (display_step total : nat) : list nat :=
  List.filter (fun k => k mod display_step =? 0) (seq 0 total).

(** the epochs, among the first [n], after which the loop shows real
    against generated images: the multiples of 3 ([img_show]) *)
Definition shown_epochs (n : nat) : list nat :=
  List.filter (fun e => e mod 3 =? 0) (seq 0 n).

(** ** Small concrete inputs, used to run the definitions *)

(** a random stream that always yields zero *)
Definition zero_stream : nat -> R := fun _ => 0%R.

(** a dropout stream that keeps every unit *)
Definition keep_all : nat -> bool := fun _ => true.

(** the world before any module is built *)
Definition empty_world : World := mkWorld ∅ 0 0.

(** gradients that are all-zero tensors of one element *)
Definition zero_vjp : gmap loc Param -> Scalar -> loc -> Tensor :=
  fun _ _ _ => mkTensor [1] [0%R].


(** a black 1 x 28 x 28 image *)
Definition blank_image : Image := [repeat (repeat 0%R 28) 28].

(** a batch of two images with their labels *)
Definition two_images : list Image * list nat := ([blank_image; blank_image], [0; 0]).

(** a dataset of two examples *)
Definition two_examples : list (Image * nat) := [(blank_image, 0); (blank_image, 0)].

(** a dataset of three examples *)
Definition three_examples : list (Image * nat) := (blank_image, 0) :: two_examples.

(** a dataset of the size of Fashion-MNIST's training split *)
Definition sixty_thousand_examples : list (Image * nat) := repeat (blank_image, 0) 60000.

(** a grid renderer that forgets the pictures *)
Definition no_grid : list (list R) -> nat -> unit := fun _ _ => tt.

Section Notebook.

(** *** The device's random stream and the gradient values *)

(** Value drawn by [torch.randn] at stream position [k]. *)
Variable normal_at : nat -> R.
(** Keep-bit drawn by [nn.Dropout] at stream position [k]. *)
Variable keep_at : nat -> bool.
(** Value drawn by the default initialiser of [nn.Linear] at position [k]. *)
Variable uniform_at : nat -> R.
(** [vjp h loss p]: the gradient of [loss] with respect to parameter [p]
    that [loss.backward()] computes from the recorded graph and the
    parameter values in [h]. *)
Variable vjp : gmap loc Param -> Scalar -> loc -> Tensor.

(** [torch.randn(n, z)] *)
Definition randn (n z : nat) : M Var :=
  fun w =>
    Ok (constant (map (fun i => map (fun c => normal_at (rng w + i * z + c)) (seq 0 z)) (seq 0 n)))
       (mkWorld (heap w) (next_loc w) (rng w + n * z)).

Definition dropout_row (p : R) (cur : nat) (r : list R) : list R :=
  imap (fun c v => if keep_at (cur + c) then (v / (1 - p))%R else 0%R) r.

Fixpoint dropout_rows (p : R) (cur : nat) (x : Matrix) : Matrix :=
  match x with
  | [] => []
  | r :: x' => dropout_row p cur r :: dropout_rows p (cur + length r) x'
  end.

(** *** Forward passes (training mode) *)

Definition Linear_forward (W b : loc) (i o : nat) (x : Var) : M Var :=
  fun w =>
    if row_lengths_ok i (value x)
    then Ok (mkVar (F_linear (deref w W) (deref w b) i o (value x))
                   (GradFn "AddmmBackward" [value x]
                           [grad_fn x; AccumulateGrad W; AccumulateGrad b])) w
    else Raise (RuntimeError "mat1 and mat2 shapes cannot be multiplied").

Definition BatchNorm1d_forward (g b : loc) (n : nat) (x : Var) : M Var :=
  fun w =>
    if Nat.eqb (length (value x)) 1
    then Raise (ValueError "Expected more than 1 value per channel when training")
    else if row_lengths_ok n (value x)
    then Ok (mkVar (F_batch_norm (deref w g) (deref w b) (value x))
                   (GradFn "NativeBatchNormBackward" [value x]
                           [grad_fn x; AccumulateGrad g; AccumulateGrad b])) w
    else Raise (RuntimeError "running_mean should contain as many elements as input features").

Definition LeakyReLU_forward (s : R) (x : Var) : M Var :=
  ret (mkVar (F_leaky_relu s (value x)) (GradFn "LeakyReluBackward" [value x] [grad_fn x])).

Definition Dropout_forward (p : R) (x : Var) : M Var :=
  fun w =>
    let y := dropout_rows p (rng w) (value x) in
    Ok (mkVar y (GradFn "MulBackward" [value x; y] [grad_fn x]))
       (mkWorld (heap w) (next_loc w) (rng w + numel (value x))).

Definition Sigmoid_forward (x : Var) : M Var :=
  ret (mkVar (F_sigmoid (value x)) (GradFn "SigmoidBackward" [F_sigmoid (value x)] [grad_fn x])).

Fixpoint forward (l : Layer) (x : Var) {struct l} : M Var :=
  match l with
  | Linear W b i o => Linear_forward W b i o x
  | BatchNorm1d g b n => BatchNorm1d_forward g b n x
  | LeakyReLU s => LeakyReLU_forward s x
  | Dropout p => Dropout_forward p x
  | Sigmoid => Sigmoid_forward x
  | Sequential ms =>
      (fix run (ms : list Layer) (x : Var) {struct ms} : M Var :=
         match ms with
         | [] => ret x
         | m :: ms' => let* y := forward m x in run ms' y
         end) ms x
  end.


(** the body of [nn.Sequential.forward]: the modules in order *)
Fixpoint forward_all (ms : list Layer) (x : Var) : M Var :=
  match ms with
  | [] => ret x
  | m :: ms' => let* y := forward m x in forward_all ms' y
  end.

Fixpoint foldM {A B} (f : A -> B -> M A) (a : A) (bs : list B) : M A :=
  match bs with
  | [] => ret a
  | b :: bs' => let* a' := f a b in foldM f a' bs'
  end.

(** *** Constructors of the library modules *)

(** a tensor of the given shape filled from the initialiser's stream *)
Definition init_uniform (sh : list nat) : M Tensor :=
  fun w =>
    let n := foldr Nat.mul 1 sh in
    Ok (mkTensor sh (map (fun k => uniform_at (rng w + k)) (seq 0 n)))
       (mkWorld (heap w) (next_loc w) (rng w + n)).

(** [nn.Linear(i, o)]: weight of shape [o, i], bias of shape [o] *)
Definition nn_Linear (i o : nat) : M Layer :=
  let* W := init_uniform [o; i] in
  let* lw := new_parameter W in
  let* b := init_uniform [o] in
  let* lb := new_parameter b in
  ret (Linear lw lb i o).

(** [nn.BatchNorm1d(n)]: weight ones, bias zeros *)
Definition nn_BatchNorm1d (n : nat) : M Layer :=
  let* g := new_parameter (full [n] 1%R) in
  let* b := new_parameter (full [n] 0%R) in
  ret (BatchNorm1d g b n).

(** *** Generator *)

Definition get_generator_block (input_dim output_dim : nat) : M Layer :=
  let* lin := nn_Linear input_dim output_dim in
  let* bn := nn_BatchNorm1d output_dim in
  ret (Sequential [lin; bn; LeakyReLU (2 / 10)%R; Dropout (3 / 10)%R]).

Record Generator := mkGenerator { gen : Layer }.

(** [Generator.__init__(z_dim=10, img_dim=28*28, hidden_dim=128)] *)
Definition Generator_init (z_dim img_dim hidden_dim : nat) : M Generator :=
  let* b1 := get_generator_block z_dim hidden_dim in
  let* b2 := get_generator_block hidden_dim (hidden_dim * 2) in
  let* b3 := get_generator_block (hidden_dim * 2) (hidden_dim * 4) in
  let* b4 := get_generator_block (hidden_dim * 4) (hidden_dim * 8) in
  let* out := nn_Linear (hidden_dim * 8) img_dim in
  ret (mkGenerator (Sequential [b1; b2; b3; b4; out; Sigmoid])).

Definition Generator_forward (self : Generator) (noise : Var) : M Var :=
  forward (gen self) noise.

Definition get_generator_noise (n_sample z_dim : nat) : M Var :=
  randn n_sample z_dim.

(** *** Discriminator *)

Definition get_discriminator_block (input_dim output_dim : nat) : M Layer :=
  let* lin := nn_Linear input_dim output_dim in
  ret (Sequential [lin; LeakyReLU (2 / 10)%R]).

Record Discriminator := mkDiscriminator { disc : Layer }.

(** [Discriminator.__init__(img_dim=28*28, hidden_dim=128)] *)
Definition Discriminator_init (img_dim hidden_dim : nat) : M Discriminator :=
  let* b1 := get_discriminator_block img_dim (hidden_dim * 4) in
  let* b2 := get_discriminator_block (hidden_dim * 4) (hidden_dim * 2) in
  let* b3 := get_discriminator_block (hidden_dim * 2) hidden_dim in
  let* out := nn_Linear hidden_dim 1 in
  ret (mkDiscriminator (Sequential [b1; b2; b3; out])).

Definition Discriminator_forward (self : Discriminator) (image : Var) : M Var :=
  forward (disc self) image.

(** *** The two networks of the notebook

    [generator = Generator(z_dim)] and [discriminator = Discriminator()],
    built in that order; the notebook leaves [img_dim] and [hidden_dim]
    at their defaults, [28*28] and [128]. *)
Definition build_networks (z_dim img_dim hidden_dim : nat) : M (Generator * Discriminator) :=
  let* generator := Generator_init z_dim img_dim hidden_dim in
  let* discriminator := Discriminator_init img_dim hidden_dim in
  ret (generator, discriminator).

(** *** Losses *)

(** [nn.BCEWithLogitsLoss()(input, target)] *)
Definition BCEWithLogitsLoss (input target : Var) : M Scalar :=
  if decide (map length (value target) = map length (value input))
  then ret (mkScalar (F_bce_with_logits (value input) (value target))
                     (GradFn "BinaryCrossEntropyWithLogitsBackward"
                             [value input; value target] [grad_fn input]))
  else raise (ValueError "Target size must be the same as input size").

Definition zeros_like_v (x : Var) : Var := constant (zeros_like_m (value x)).
Definition ones_like_v (x : Var) : Var := constant (ones_like_m (value x)).

Definition scalar_add (a b : Scalar) : Scalar :=
  mkScalar (item a + item b)%R (GradFn "AddBackward" [] [scalar_grad_fn a; scalar_grad_fn b]).

Definition scalar_div (a : Scalar) (c : R) : Scalar :=
  mkScalar (item a / c)%R (GradFn "DivBackward" [] [scalar_grad_fn a]).

Definition get_discriminator_loss (gen : Generator) (disc : Discriminator)
    (criterion : Var -> Var -> M Scalar) (real : Var) (num_images z_dim : nat) : M Scalar :=
  let* noise := get_generator_noise num_images z_dim in
  let* gen_output := Generator_forward gen noise in
  let* disc_out_fake := Discriminator_forward disc (detach gen_output) in
  let* disc_loss_fake := criterion disc_out_fake (zeros_like_v disc_out_fake) in
  let* disc_out_real := Discriminator_forward disc real in
  let* disc_loss_real := criterion disc_out_real (ones_like_v disc_out_real) in
  let disc_loss := scalar_div (scalar_add disc_loss_fake disc_loss_real) 2 in
  ret disc_loss.

Definition get_generator_loss (gen : Generator) (disc : Discriminator)
    (criterion : Var -> Var -> M Scalar) (num_images z_dim : nat) : M Scalar :=
  let* noise := get_generator_noise num_images z_dim in
  let* gen_output := Generator_forward gen noise in
  let* disc_preds := Discriminator_forward disc gen_output in
  let* gen_loss := criterion disc_preds (ones_like_v disc_preds) in
  ret gen_loss.

(** *** Backward pass and the Adam optimizer *)

(** [p.grad] after one more gradient has been accumulated into it *)
Definition accumulate (g : option Tensor) (d : Tensor) : option Tensor :=
  match g with
  | None => Some d
  | Some g0 => Some (inplace2 Rplus g0 d)
  end.

(** [loss.backward()]: every parameter reachable from the loss's graph
    has the gradient accumulated into its [.grad]; all other cells are
    left alone. *)
Definition backward (loss : Scalar) : M unit :=
  fun w =>
    match scalar_grad_fn loss with
    | NoGrad =>
        Raise (RuntimeError "element 0 of tensors does not require grad and does not have a grad_fn")
    | _ =>
        Ok tt (mkWorld
                 (map_imap (fun p c =>
                              Some (if decide (p ∈ leaves (scalar_grad_fn loss))
                                    then mkParam (data c) (accumulate (grad c) (vjp (heap w) loss p))
                                    else c)) (heap w))
                 (next_loc w) (rng w))
    end.

Record AdamState := mkAdamState { step : nat; exp_avg : Tensor; exp_avg_sq : Tensor }.

Record Optimizer := mkOptimizer { params : list loc; learning_rate : R; state : gmap loc AdamState }.

(** [torch.optim.Adam(params, lr=lr)] with the default betas and eps *)
Definition Adam (ps : list loc) (lr : R) : Optimizer := mkOptimizer ps lr ∅.

(** [optimizer.state[p]['step']]: how many updates the optimizer has made
    to parameter [p]; a parameter not yet stepped has no state *)
Definition steps_taken (opt : Optimizer) (p : loc) : nat :=
  from_option step 0 (state opt !! p).

Definition beta1 : R := (9 / 10)%R.
Definition beta2 : R := (999 / 1000)%R.
Definition adam_eps : R := (1 / 100000000)%R.

(** [optimizer.zero_grad()]: the gradients of the optimizer's own
    parameters are zeroed in place. *)
Definition zero_grad (opt : Optimizer) : M unit :=
  fun w =>
    Ok tt (mkWorld
             (map_imap (fun p c =>
                          Some (if decide (p ∈ params opt)
                                then mkParam (data c) (zeros_like <$> grad c)
                                else c)) (heap w))
             (next_loc w) (rng w)).

(** state of a parameter, created lazily at its first step *)
Definition adam_state_of (opt : Optimizer) (p : loc) (c : Param) : AdamState :=
  default (mkAdamState 0 (zeros_like (data c)) (zeros_like (data c))) (state opt !! p).

Definition adam_moments (st : AdamState) (g : Tensor) : AdamState :=
  mkAdamState (S (step st))
    (inplace2 (fun m gk => beta1 * m + (1 - beta1) * gk)%R (exp_avg st) g)
    (inplace2 (fun v gk => beta2 * v + (1 - beta2) * gk * gk)%R (exp_avg_sq st) g).

Definition adam_update (lr : R) (st : AdamState) (p : Tensor) : Tensor :=
  let bias_correction1 := (1 - beta1 ^ step st)%R in
  let bias_correction2 := (1 - beta2 ^ step st)%R in
  mkTensor (shape p)
    (imap (fun k x =>
             (x - lr / bias_correction1
                  * (nth k (storage (exp_avg st)) 0
                     / (sqrt (nth k (storage (exp_avg_sq st)) 0) / sqrt bias_correction2
                        + adam_eps)))%R)
          (storage p)).

(** [optimizer.step()]: every parameter of the optimizer that has a
    gradient is updated in place; the others are skipped. *)
Definition Optimizer_step (opt : Optimizer) : M Optimizer :=
  fun w =>
    let stepped : gmap loc AdamState :=
      map_imap (fun p c =>
                  if decide (p ∈ params opt)
                  then adam_moments (adam_state_of opt p c) <$> grad c
                  else None) (heap w) in
    Ok (mkOptimizer (params opt) (learning_rate opt) (stepped ∪ state opt))
       (mkWorld
          (map_imap (fun p c =>
                       Some (match stepped !! p with
                             | Some st => mkParam (adam_update (learning_rate opt) st (data c)) (grad c)
                             | None => c
                             end)) (heap w))
          (next_loc w) (rng w)).

(** *** Data loading *)

(** [BatchSampler]: indices are appended to the current batch, which is
    yielded when it reaches [batch_size]; what is left at the end is
    yielded unless [drop_last]. *)
Fixpoint batch_sampler_go {A} (batch_size : nat) (drop_last : bool)
    (sampler : list A) (batch : list A) : list (list A) :=
  match sampler with
  | [] => if (0 <? length batch) && negb drop_last then [batch] else []
  | idx :: rest =>
      let batch := batch ++ [idx] in
      if length batch =? batch_size
      then batch :: batch_sampler_go batch_size drop_last rest []
      else batch_sampler_go batch_size drop_last rest batch
  end.

Definition BatchSampler {A} (sampler : list A) (batch_size : nat) (drop_last : bool)
  : list (list A) :=
  batch_sampler_go batch_size drop_last sampler [].

(** [len(loader)] for a loader that keeps the last partial batch *)
Definition loader_len (n batch_size : nat) : nat := (n + batch_size - 1) / batch_size.

(** *** Globals of the notebook *)

Variable data_train : list (Image * nat).
Variable batch_size : nat.
(** The order in which the shuffling sampler visits the dataset during
    the pass of epoch [e]. *)
Variable epoch_order : nat -> list nat.

Variable generator : Generator.
Variable discriminator : Discriminator.
Variables num_epochs z_dim display_step : nat.
Variable lr : R.

(** [torchvision.utils.make_grid(images, nrow=..., normalize=True, padding=2)] *)
Variable Grid : Type.
Variable make_grid : list (list R) -> nat -> Grid.

Definition criterion := BCEWithLogitsLoss.

(** [size = (1, 28, 28)] *)
Definition size : list nat := [1; 28; 28].

(** [DataLoader(data_train, batch_size=batch_size, shuffle=True)],
    iterated for epoch [e]: batches of images and of labels *)
Definition train_loader (e : nat) : list (list Image * list nat) :=
  map (fun idxs => let examples := map (fun i => nth i data_train ([], 0)) idxs in
                   (map fst examples, map snd examples))
      (BatchSampler (epoch_order e) batch_size false).

(** number of elements of one image *)
Definition image_size : nat := foldr Nat.mul 1 size.

(** [t.view(-1, *size)]: regroup the elements into images; the number of
    elements has to be a multiple of the image size *)
Definition view_images (x : Matrix) : M (list (list R)) :=
  if numel x mod image_size =? 0
  then ret (BatchSampler (concat x) image_size true)
  else raise (RuntimeError "shape is invalid for input size").

(** A batch the loop can work on: at least two images of the right size. *)
Definition good_batch (batch : list Image * list nat) : Prop :=
  2 <= length (fst batch)
  /\ Forall (fun img => length (concat (concat img)) = image_size) (fst batch).

(** [real.view(cur_batch_size, -1)] on a batch of images *)
Definition view_flat (images : list Image) : M Matrix :=
  match images with
  | [] => raise (RuntimeError "cannot reshape tensor of 0 elements")
  | _ => ret (map (fun img => concat (concat img)) images)
  end.

(** *** Training loop *)

Record Report := mkReport {
  report_epoch : nat; report_num_epochs : nat;
  report_step : nat; report_total_steps : nat;
  report_generator_loss : R; report_discriminator_loss : R }.

(** The variables of the training cell.  [cur_batch_size] and [real] are
    loop variables that keep their last value after the inner loop. *)
Record Loop := mkLoop {
  gen_optimizer : Optimizer; disc_optimizer : Optimizer;
  img_list : list Grid; G_losses : list R; D_losses : list R;
  iters : nat; cur_step : nat;
  mean_generator_loss : R; mean_discriminator_loss : R;
  cur_batch_size : option nat; real : option Var;
  stdout : list Report; figures : list (Grid * Grid) }.

(** the discriminator's half of a step: [disc_optimizer.zero_grad()]
    up to [disc_optimizer.step()] *)
Definition discriminator_update (opt : Optimizer) (real : Var) (cur_batch_size : nat)
  : M (Scalar * Optimizer) :=
  let* _ := zero_grad opt in
  let* disc_loss :=
    get_discriminator_loss generator discriminator criterion real cur_batch_size z_dim in
  let* _ := backward disc_loss in
  let* opt' := Optimizer_step opt in
  ret (disc_loss, opt').

(** the generator's half: [gen_optimizer.zero_grad()] up to
    [gen_optimizer.step()] *)
Definition generator_update (opt : Optimizer) (cur_batch_size : nat)
  : M (Scalar * Optimizer) :=
  let* _ := zero_grad opt in
  let* gen_loss :=
    get_generator_loss generator discriminator criterion cur_batch_size z_dim in
  let* _ := backward gen_loss in
  let* opt' := Optimizer_step opt in
  ret (gen_loss, opt').

(** the bookkeeping that follows the two updates, up to [cur_step += 1] *)
Definition record_losses (epoch : nat) (st : Loop) (disc_opt gen_opt : Optimizer)
    (real : Var) (cur_batch_size : nat) (disc_loss gen_loss : Scalar) : M Loop :=
  let mean_discriminator_loss :=
    (mean_discriminator_loss st + item disc_loss / INR cur_batch_size)%R in
  let mean_generator_loss :=
    (mean_generator_loss st + item gen_loss / INR cur_batch_size)%R in
  let G_losses := G_losses st ++ [mean_discriminator_loss] in
  let D_losses := D_losses st ++ [mean_generator_loss] in
  if display_step =? 0 then raise ZeroDivisionError
  else if cur_step st mod display_step =? 0
  then
    let report :=
      mkReport epoch num_epochs (cur_step st)
               (num_epochs * loader_len (length data_train) batch_size)
               mean_generator_loss mean_discriminator_loss in
    let* fake_noise := get_generator_noise cur_batch_size z_dim in
    let* fake := Generator_forward generator fake_noise in
    let* images := view_images (value (detach fake)) in
    ret (mkLoop gen_opt disc_opt
                (img_list st ++ [make_grid (take 36 images) 6]) G_losses D_losses
                (iters st) (cur_step st + 1) 0 0
                (Some cur_batch_size) (Some real)
                (stdout st ++ [report]) (figures st))
  else
    ret (mkLoop gen_opt disc_opt
                (img_list st) G_losses D_losses
                (iters st) (cur_step st + 1) mean_generator_loss mean_discriminator_loss
                (Some cur_batch_size) (Some real)
                (stdout st) (figures st)).

(** body of [for real, _ in tqdm(train_loader)] *)
Definition train_batch (epoch : nat) (st : Loop) (batch : list Image * list nat) : M Loop :=
  let cur_batch_size := length (fst batch) in
  let* flat := view_flat (fst batch) in
  let real := constant flat in
  let* '(disc_loss, disc_opt) := discriminator_update (disc_optimizer st) real cur_batch_size in
  let* '(gen_loss, gen_opt) := generator_update (gen_optimizer st) cur_batch_size in
  record_losses epoch st disc_opt gen_opt real cur_batch_size disc_loss gen_loss.

(** [show_tensor_images(real, fake)] with [num_images=25]: the two grids
    that are drawn *)
Definition show_tensor_images (real fake : Var) : M (Grid * Grid) :=
  let* image_unflat_real := view_images (value (detach real)) in
  let image_grid_real := make_grid (take 25 image_unflat_real) 5 in
  let* image_unflat_fake := view_images (value (detach fake)) in
  let image_grid_fake := make_grid (take 25 image_unflat_fake) 5 in
  ret (image_grid_real, image_grid_fake).

Definition img_show : nat := 3.

(** what follows the inner loop: [if epoch % img_show == 0: ...] *)
Definition end_of_epoch (epoch : nat) (st : Loop) : M Loop :=
  if epoch mod img_show =? 0
  then
    match cur_batch_size st, real st with
    | Some b, Some r =>
        let* fake_noise := get_generator_noise b z_dim in
        let* fake := Generator_forward generator fake_noise in
        let* shown := show_tensor_images r fake in
        ret (mkLoop (gen_optimizer st) (disc_optimizer st) (img_list st)
                    (G_losses st) (D_losses st) (iters st) (cur_step st)
                    (mean_generator_loss st) (mean_discriminator_loss st)
                    (cur_batch_size st) (real st) (stdout st) (figures st ++ [shown]))
    | _, _ => raise (NameError "cur_batch_size")
    end
  else ret st.

(** body of [for epoch in range(num_epochs)] *)
Definition train_epoch (st : Loop) (epoch : nat) : M Loop :=
  let* st := foldM (train_batch epoch) st (train_loader epoch) in
  end_of_epoch epoch st.

(** the state before the first epoch *)
Definition initial_loop : Loop :=
  mkLoop (Adam (parameters (gen generator)) lr) (Adam (parameters (disc discriminator)) lr)
         [] [] [] 0 0 0 0 None None [] [].

(** the whole training cell *)
Definition training : M Loop :=
  foldM train_epoch initial_loop (seq 0 num_epochs).

(** The loop variables the end-of-epoch display reads have been set by
    some earlier batch the generator accepts. *)
Definition display_ready (st : Loop) : Prop :=
  exists b r,
    cur_batch_size st = Some b /\ b <> 1
    /\ real st = Some r /\ is_batch b image_size (value r).

(** *** The run, step by step

    [run_batches epoch st w batches hist st' w'] holds when the inner
    loop, started in [st] and [w], works through [batches] and ends in
    [st'] and [w']; [hist] lists, per step, the two amounts added to the
    running losses: [disc_loss.item() / cur_batch_size] and
    [gen_loss.item() / cur_batch_size]. *)
Inductive run_batches (epoch : nat)
  : Loop -> World -> list (list Image * list nat) -> list (R * R) -> Loop -> World -> Prop :=
| run_batches_nil st w : run_batches epoch st w [] [] st w
| run_batches_cons st w batch batches flat disc_loss disc_opt w1 gen_loss gen_opt w2
                   st1 w3 hist st' w' :
    view_flat (fst batch) w = Ok flat w ->
    discriminator_update (disc_optimizer st) (constant flat) (length (fst batch)) w
    = Ok (disc_loss, disc_opt) w1 ->
    generator_update (gen_optimizer st) (length (fst batch)) w1 = Ok (gen_loss, gen_opt) w2 ->
    record_losses epoch st disc_opt gen_opt (constant flat) (length (fst batch))
                  disc_loss gen_loss w2 = Ok st1 w3 ->
    run_batches epoch st1 w3 batches hist st' w' ->
    run_batches epoch st w (batch :: batches)
                ((item disc_loss / INR (length (fst batch)),
                  item gen_loss / INR (length (fst batch)))%R :: hist) st' w'.

Inductive run_epochs
  : Loop -> World -> list nat -> list (R * R) -> Loop -> World -> Prop :=
| run_epochs_nil st w : run_epochs st w [] [] st w
| run_epochs_cons st w epoch epochs hist1 st1 w1 st2 w2 hist2 st' w' :
    run_batches epoch st w (train_loader epoch) hist1 st1 w1 ->
    end_of_epoch epoch st1 w1 = Ok st2 w2 ->
    run_epochs st2 w2 epochs hist2 st' w' ->
    run_epochs st w (epoch :: epochs) (hist1 ++ hist2) st' w'.


(** * Properties *)

(** Drop the notebook's globals that the goal does not mention. *)
Ltac tidy :=
  try clear make_grid; try clear Grid; try clear lr;
  try clear num_epochs; try clear z_dim; try clear display_step;
  try clear generator; try clear discriminator;
  try clear epoch_order; try clear batch_size; try clear data_train;
  try clear vjp; try clear uniform_at; try clear keep_at; try clear normal_at.

(** ** The exception monad *)

Lemma bind_ok {A B} (m : M A) (k : A -> M B) w a w1 :
  m w = Ok a w1 -> bind m k w = k a w1.
Proof. unfold bind. intros ->. reflexivity. Qed.

Lemma bind_inv {A B} (m : M A) (k : A -> M B) w b w' :
  bind m k w = Ok b w' -> exists a w1, m w = Ok a w1 /\ k a w1 = Ok b w'.
Proof. unfold bind. destruct (m w) as [a w1|e]; [eauto | discriminate]. Qed.

Lemma bind_raise {A B} (m : M A) (k : A -> M B) w e :
  m w = Raise e -> bind m k w = Raise e.
Proof. unfold bind. intros ->. reflexivity. Qed.

(** ** Shapes *)

Lemma is_batch_row_lengths_ok B d (m : Matrix) :
  is_batch B d m -> row_lengths_ok d m = true.
Proof.
  intros [_ H]. unfold row_lengths_ok. apply forallb_forall.
  intros r Hr. rewrite Forall_forall in H. apply Nat.eqb_eq, H.
  by apply list_elem_of_In.
Qed.

Lemma row_lengths_ok_is_batch d (m : Matrix) :
  row_lengths_ok d m = true -> is_batch (length m) d m.
Proof.
  unfold row_lengths_ok. rewrite forallb_forall. intros H. split; [done|].
  apply Forall_forall. intros r Hr. apply Nat.eqb_eq, H. by apply list_elem_of_In.
Qed.

Lemma is_batch_map B d d' (f : list R -> list R) (m : Matrix) :
  (forall r, length r = d -> length (f r) = d') ->
  is_batch B d m -> is_batch B d' (map f m).
Proof.
  intros Hf [HB Hrows]. split; [by rewrite length_map|].
  apply Forall_forall. intros r' Hr'. apply list_elem_of_In, in_map_iff in Hr'.
  destruct Hr' as (r & <- & Hr). apply Hf.
  rewrite Forall_forall in Hrows. by apply Hrows, list_elem_of_In.
Qed.

Lemma is_batch_F_linear W b i o B d (x : Matrix) :
  is_batch B d x -> is_batch B o (F_linear W b i o x).
Proof.
  apply is_batch_map. intros r _. by rewrite length_map, length_seq.
Qed.

Lemma is_batch_F_batch_norm g b B d (x : Matrix) :
  is_batch B d x -> is_batch B d (F_batch_norm g b x).
Proof.
  apply is_batch_map. intros r Hr. by rewrite length_imap.
Qed.

Lemma is_batch_F_leaky_relu s B d (x : Matrix) :
  is_batch B d x -> is_batch B d (F_leaky_relu s x).
Proof. apply is_batch_map. intros r Hr. by rewrite length_map. Qed.

Lemma is_batch_F_sigmoid B d (x : Matrix) :
  is_batch B d x -> is_batch B d (F_sigmoid x).
Proof. apply is_batch_map. intros r Hr. by rewrite length_map. Qed.

Lemma is_batch_dropout_rows p B d (x : Matrix) : forall cur,
  is_batch B d x -> is_batch B d (dropout_rows p cur x).
Proof.
  revert B. induction x as [|r x IH]; intros B cur [HB Hrows]; [done|].
  simpl in *. inversion Hrows as [|? ? Hr Hx]; subst.
  destruct (IH (length x) (cur + length r) (conj eq_refl Hx)) as [IH1 IH2].
  split; simpl; [by rewrite IH1|].
  constructor; [|done]. unfold dropout_row. by rewrite length_imap.
Qed.

Lemma is_batch_randn n z w a w' :
  randn n z w = Ok a w' ->
  is_batch n z (value a) /\ grad_fn a = NoGrad /\ heap w' = heap w
  /\ next_loc w' = next_loc w /\ rng w' = rng w + n * z.
Proof.
  unfold randn. intros [= <- <-]. simpl. repeat split.
  - by rewrite length_map, length_seq.
  - apply Forall_forall. intros r Hr. apply list_elem_of_In, in_map_iff in Hr.
    destruct Hr as (i & <- & _). by rewrite length_map, length_seq.
Qed.

Lemma numel_is_batch B d (m : Matrix) : is_batch B d m -> numel m = B * d.
Proof.
  unfold numel. revert B. induction m as [|r m IH]; intros B [HB Hrows].
  - simpl in *. by subst.
  - inversion Hrows; subst. simpl. rewrite length_app.
    by rewrite (IH (length m) (conj eq_refl H2)).
Qed.

(** ** Structural induction on modules *)

Lemma Layer_nested_ind (P : Layer -> Prop) :
  (forall W b i o, P (Linear W b i o)) ->
  (forall g b n, P (BatchNorm1d g b n)) ->
  (forall s, P (LeakyReLU s)) ->
  (forall p, P (Dropout p)) ->
  P Sigmoid ->
  (forall ms, Forall P ms -> P (Sequential ms)) ->
  forall l, P l.
Proof.
  intros HL HB HR HD HS HQ. fix IH 1. intros [W b i o|g b n|s|p| |ms].
  - apply HL.
  - apply HB.
  - apply HR.
  - apply HD.
  - apply HS.
  - apply HQ. induction ms as [|m ms IHms]; constructor; [apply IH | apply IHms].
Qed.

Lemma forward_Sequential ms x : forward (Sequential ms) x = forward_all ms x.
Proof. reflexivity. Qed.

Lemma out_dim_Sequential ms d : out_dim (Sequential ms) d = out_dim_all ms d.
Proof. reflexivity. Qed.

(** ** A module whose widths chain accepts the batch *)

Lemma forward_ok l : forall d d' B x w,
  out_dim l d = Some d' ->
  is_batch B d (value x) ->
  (has_batch_norm l = true -> B <> 1) ->
  exists y w',
    forward l x w = Ok y w'
    /\ is_batch B d' (value y)
    /\ heap w' = heap w /\ next_loc w' = next_loc w
    /\ leaves (grad_fn y) = leaves (grad_fn x) ∪ list_to_set (parameters l).
Proof.
  tidy.
  induction l as [W b i o|g b n|s|p| |ms IH] using Layer_nested_ind;
    intros d d' B x w Hd Hx Hbn; simpl in Hd.
  - destruct (Nat.eqb_spec d i) as [->|]; [|discriminate]. injection Hd as <-.
    simpl. unfold Linear_forward. rewrite (is_batch_row_lengths_ok _ _ _ Hx).
    eexists _, _. split; [reflexivity|]. simpl.
    split; [apply is_batch_F_linear with (d := i), Hx|].
    do 2 (split; [reflexivity|]). set_solver.
  - destruct (Nat.eqb_spec d n) as [->|]; [|discriminate]. injection Hd as <-.
    simpl. unfold BatchNorm1d_forward.
    destruct (Nat.eqb_spec (length (value x)) 1) as [E|_].
    { exfalso. apply Hbn; [done|]. destruct Hx as [<- _]. done. }
    rewrite (is_batch_row_lengths_ok _ _ _ Hx).
    eexists _, _. split; [reflexivity|]. simpl.
    split; [apply is_batch_F_batch_norm, Hx|].
    do 2 (split; [reflexivity|]). set_solver.
  - injection Hd as <-. eexists _, _. split; [reflexivity|]. simpl.
    split; [apply is_batch_F_leaky_relu, Hx|].
    do 2 (split; [reflexivity|]). set_solver.
  - injection Hd as <-. eexists _, _. split; [reflexivity|]. simpl.
    split; [apply is_batch_dropout_rows, Hx|].
    do 2 (split; [reflexivity|]). set_solver.
  - injection Hd as <-. eexists _, _. split; [reflexivity|]. simpl.
    split; [apply is_batch_F_sigmoid, Hx|].
    do 2 (split; [reflexivity|]). set_solver.
  - rewrite forward_Sequential. change (out_dim_all ms d = Some d') in Hd.
    simpl in Hbn. revert d x w Hd Hx Hbn.
    induction IH as [|m ms Hm _ IHms]; intros d x w Hd Hx Hbn; simpl in *.
    + injection Hd as <-. eexists _, _. split; [reflexivity|].
      split; [apply Hx|]. do 2 (split; [reflexivity|]). set_solver.
    + destruct (out_dim m d) as [d1|] eqn:E1; [|discriminate].
      destruct (Hm d d1 B x w E1 Hx) as (y & w1 & Hy & Hyb & Hh & Hn & Hl).
      { intros E. apply Hbn. by rewrite E. }
      destruct (IHms d1 y w1 Hd Hyb) as (y2 & w2 & Hy2 & Hyb2 & Hh2 & Hn2 & Hl2).
      { intros E. apply Hbn. rewrite E. by rewrite orb_true_r. }
      exists y2, w2. rewrite (bind_ok _ _ _ _ _ Hy). split; [done|].
      split; [done|]. split; [congruence|]. split; [congruence|].
      rewrite Hl2, Hl, list_to_set_app_L. set_solver.
Qed.

(** ** What the constructors build *)

Lemma new_parameter_spec t w :
  exists w', new_parameter t w = Ok (next_loc w) w'
             /\ next_loc w' = next_loc w + 1
             /\ (forall p, p < next_loc w -> heap w' !! p = heap w !! p).
Proof.
  eexists. split; [reflexivity|]. simpl. split; [lia|].
  intros p Hp. apply lookup_insert_ne. lia.
Qed.

Lemma init_uniform_spec sh w :
  exists t w', init_uniform sh w = Ok t w' /\ next_loc w' = next_loc w /\ heap w' = heap w.
Proof. eexists _, _. split; [reflexivity|]. split; reflexivity. Qed.

Ltac ctor_step spec :=
  let w' := fresh "w" in let H := fresh "H" in let N := fresh "N" in let F := fresh "F" in
  match goal with
  | |- context [bind ?m _ ?w] =>
      destruct spec as (w' & H & N & F); rewrite (bind_ok _ _ _ _ _ H); cbv beta
  end.

Lemma nn_Linear_spec i o w :
  exists w', nn_Linear i o w = Ok (Linear (next_loc w) (next_loc w + 1) i o) w'
             /\ next_loc w' = next_loc w + 2
             /\ (forall p, p < next_loc w -> heap w' !! p = heap w !! p).
Proof.
  unfold nn_Linear.
  destruct (init_uniform_spec [o; i] w) as (W & w1 & H1 & N1 & F1).
  rewrite (bind_ok _ _ _ _ _ H1).
  destruct (new_parameter_spec W w1) as (w2 & H2 & N2 & F2).
  rewrite (bind_ok _ _ _ _ _ H2).
  destruct (init_uniform_spec [o] w2) as (b & w3 & H3 & N3 & F3).
  rewrite (bind_ok _ _ _ _ _ H3).
  destruct (new_parameter_spec b w3) as (w4 & H4 & N4 & F4).
  rewrite (bind_ok _ _ _ _ _ H4).
  exists w4. unfold ret. rewrite N3, N2, N1. split; [reflexivity|]. split; [lia|].
  intros p Hp. rewrite F4, F3, F2, F1 by lia. reflexivity.
Qed.

Lemma nn_BatchNorm1d_spec n w :
  exists w', nn_BatchNorm1d n w = Ok (BatchNorm1d (next_loc w) (next_loc w + 1) n) w'
             /\ next_loc w' = next_loc w + 2
             /\ (forall p, p < next_loc w -> heap w' !! p = heap w !! p).
Proof.
  unfold nn_BatchNorm1d.
  destruct (new_parameter_spec (full [n] 1%R) w) as (w1 & H1 & N1 & F1).
  rewrite (bind_ok _ _ _ _ _ H1).
  destruct (new_parameter_spec (full [n] 0%R) w1) as (w2 & H2 & N2 & F2).
  rewrite (bind_ok _ _ _ _ _ H2).
  exists w2. unfold ret. rewrite N1. split; [reflexivity|]. split; [lia|].
  intros p Hp. rewrite F2, F1 by lia. reflexivity.
Qed.

Lemma get_generator_block_spec i o w :
  exists w', get_generator_block i o w = Ok (generator_block_at (next_loc w) i o) w'
             /\ next_loc w' = next_loc w + 4
             /\ (forall p, p < next_loc w -> heap w' !! p = heap w !! p).
Proof.
  unfold get_generator_block, generator_block_at.
  destruct (nn_Linear_spec i o w) as (w1 & H1 & N1 & F1).
  rewrite (bind_ok _ _ _ _ _ H1).
  destruct (nn_BatchNorm1d_spec o w1) as (w2 & H2 & N2 & F2).
  rewrite (bind_ok _ _ _ _ _ H2).
  exists w2. unfold ret. rewrite N1.
  replace (next_loc w + 2 + 1) with (next_loc w + 3) by lia.
  split; [reflexivity|]. split; [lia|].
  intros p Hp. rewrite F2, F1 by lia. reflexivity.
Qed.

Lemma get_discriminator_block_spec i o w :
  exists w', get_discriminator_block i o w = Ok (discriminator_block_at (next_loc w) i o) w'
             /\ next_loc w' = next_loc w + 2
             /\ (forall p, p < next_loc w -> heap w' !! p = heap w !! p).
Proof.
  unfold get_discriminator_block, discriminator_block_at.
  destruct (nn_Linear_spec i o w) as (w1 & H1 & N1 & F1).
  rewrite (bind_ok _ _ _ _ _ H1).
  exists w1. unfold ret. split; [reflexivity|]. split; [lia|done].
Qed.

Lemma Generator_init_at z img h w :
  exists w', Generator_init z img h w
             = Ok (mkGenerator (Sequential (generator_modules_at (next_loc w) z img h))) w'
             /\ next_loc w' = next_loc w + 18
             /\ (forall p, p < next_loc w -> heap w' !! p = heap w !! p).
Proof.
  unfold Generator_init, generator_modules_at.
  destruct (get_generator_block_spec z h w) as (w1 & H1 & N1 & F1).
  rewrite (bind_ok _ _ _ _ _ H1).
  destruct (get_generator_block_spec h (h * 2) w1) as (w2 & H2 & N2 & F2).
  rewrite (bind_ok _ _ _ _ _ H2).
  destruct (get_generator_block_spec (h * 2) (h * 4) w2) as (w3 & H3 & N3 & F3).
  rewrite (bind_ok _ _ _ _ _ H3).
  destruct (get_generator_block_spec (h * 4) (h * 8) w3) as (w4 & H4 & N4 & F4).
  rewrite (bind_ok _ _ _ _ _ H4).
  destruct (nn_Linear_spec (h * 8) img w4) as (w5 & H5 & N5 & F5).
  rewrite (bind_ok _ _ _ _ _ H5).
  exists w5. unfold ret.
  replace (next_loc w1) with (next_loc w + 4) by lia.
  replace (next_loc w2) with (next_loc w + 8) by lia.
  replace (next_loc w3) with (next_loc w + 12) by lia.
  replace (next_loc w4) with (next_loc w + 16) by lia.
  replace (next_loc w + 16 + 1) with (next_loc w + 17) by lia.
  split; [reflexivity|]. split; [lia|].
  intros p Hp. rewrite F5, F4, F3, F2, F1 by lia. reflexivity.
Qed.

Lemma Discriminator_init_at img h w :
  exists w', Discriminator_init img h w
             = Ok (mkDiscriminator (Sequential (discriminator_modules_at (next_loc w) img h))) w'
             /\ next_loc w' = next_loc w + 8
             /\ (forall p, p < next_loc w -> heap w' !! p = heap w !! p).
Proof.
  unfold Discriminator_init, discriminator_modules_at.
  destruct (get_discriminator_block_spec img (h * 4) w) as (w1 & H1 & N1 & F1).
  rewrite (bind_ok _ _ _ _ _ H1).
  destruct (get_discriminator_block_spec (h * 4) (h * 2) w1) as (w2 & H2 & N2 & F2).
  rewrite (bind_ok _ _ _ _ _ H2).
  destruct (get_discriminator_block_spec (h * 2) h w2) as (w3 & H3 & N3 & F3).
  rewrite (bind_ok _ _ _ _ _ H3).
  destruct (nn_Linear_spec h 1 w3) as (w4 & H4 & N4 & F4).
  rewrite (bind_ok _ _ _ _ _ H4).
  exists w4. unfold ret.
  replace (next_loc w1) with (next_loc w + 2) by lia.
  replace (next_loc w2) with (next_loc w + 4) by lia.
  replace (next_loc w3) with (next_loc w + 6) by lia.
  replace (next_loc w + 6 + 1) with (next_loc w + 7) by lia.
  split; [reflexivity|]. split; [lia|].
  intros p Hp. rewrite F4, F3, F2, F1 by lia. reflexivity.
Qed.

Lemma parameters_generator_modules_at n z img h :
  parameters (Sequential (generator_modules_at n z img h)) = seq n 18.
Proof.
  cbn [parameters generator_modules_at generator_block_at map concat app seq].
  repeat (f_equal; try lia).
Qed.

Lemma parameters_discriminator_modules_at n img h :
  parameters (Sequential (discriminator_modules_at n img h)) = seq n 8.
Proof.
  cbn [parameters discriminator_modules_at discriminator_block_at map concat app seq].
  repeat (f_equal; try lia).
Qed.

Lemma Generator_init_spec z img h w0 g w1 :
  Generator_init z img h w0 = Ok g w1 ->
  out_dim (gen g) z = Some img
  /\ has_batch_norm (gen g) = true
  /\ (exists body, gen g = Sequential (body ++ [Sigmoid]))
  /\ parameters (gen g) = seq (next_loc w0) 18
  /\ next_loc w1 = next_loc w0 + 18.
Proof.
  intros H. destruct (Generator_init_at z img h w0) as (w' & H' & N & _).
  rewrite H' in H. injection H as <- <-. cbn [gen].
  split.
  { cbn [out_dim generator_modules_at generator_block_at]. by rewrite !Nat.eqb_refl. }
  split; [reflexivity|].
  split; [eexists [_; _; _; _; _]; reflexivity|].
  split; [apply parameters_generator_modules_at | exact N].
Qed.

Lemma Discriminator_init_spec img h w0 d w1 :
  Discriminator_init img h w0 = Ok d w1 ->
  out_dim (disc d) img = Some 1
  /\ has_batch_norm (disc d) = false
  /\ per_example (disc d) = true
  /\ parameters (disc d) = seq (next_loc w0) 8
  /\ next_loc w1 = next_loc w0 + 8.
Proof.
  intros H. destruct (Discriminator_init_at img h w0) as (w' & H' & N & _).
  rewrite H' in H. injection H as <- <-. cbn [disc].
  split.
  { cbn [out_dim discriminator_modules_at discriminator_block_at]. by rewrite !Nat.eqb_refl. }
  split; [reflexivity|]. split; [reflexivity|].
  split; [apply parameters_discriminator_modules_at | exact N].
Qed.

(** ** The generator's output *)







(** ** Which cells the backward pass and the optimizer touch *)

Lemma zero_grad_spec opt w :
  exists w',
    zero_grad opt w = Ok tt w'
    /\ next_loc w' = next_loc w /\ rng w' = rng w
    /\ (forall p, p ∉ params opt -> heap w' !! p = heap w !! p)
    /\ (forall p, data <$> heap w' !! p = data <$> heap w !! p).
Proof.
  tidy. eexists. split; [reflexivity|]. cbn [heap next_loc rng].
  split; [done|]. split; [done|]. split.
  - intros p Hp. rewrite map_lookup_imap. destruct (heap w !! p) as [c|]; [|done].
    simpl. by rewrite decide_False.
  - intros p. rewrite map_lookup_imap. destruct (heap w !! p) as [c|]; [|done].
    simpl. by destruct (decide (p ∈ params opt)).
Qed.

Lemma backward_spec loss w :
  scalar_grad_fn loss <> NoGrad ->
  exists w',
    backward loss w = Ok tt w'
    /\ next_loc w' = next_loc w /\ rng w' = rng w
    /\ (forall p, p ∉ leaves (scalar_grad_fn loss) -> heap w' !! p = heap w !! p)
    /\ (forall p, data <$> heap w' !! p = data <$> heap w !! p)
    /\ (forall p c, p ∈ leaves (scalar_grad_fn loss) -> heap w !! p = Some c ->
          exists g, heap w' !! p = Some (mkParam (data c) (Some g))).
Proof.
  tidy. intros Hg. unfold backward.
  destruct (scalar_grad_fn loss) as [|q|name saved next] eqn:E; [done| |].
  all: eexists; (split; [reflexivity|]); cbn [heap next_loc rng].
  all: split; [done|]; split; [done|]; split; [|split].
  all: try (intros p Hp; rewrite map_lookup_imap;
            destruct (heap w !! p) as [c|]; [|done]; simpl; by rewrite decide_False).
  all: try (intros p; rewrite map_lookup_imap;
            destruct (heap w !! p) as [c|]; [|done]; simpl;
            by destruct (decide (p ∈ _))).
  all: intros p c Hp Hc; rewrite map_lookup_imap, Hc; simpl;
       rewrite decide_True by done;
       destruct (grad c); simpl; eauto.
Qed.

(** A loss that records no graph cannot be differentiated. *)
Lemma backward_NoGrad loss w :
  scalar_grad_fn loss = NoGrad ->
  backward loss w
  = Raise (RuntimeError "element 0 of tensors does not require grad and does not have a grad_fn").
Proof. unfold backward. by intros ->. Qed.

Lemma Optimizer_step_spec opt w :
  exists opt' w',
    Optimizer_step opt w = Ok opt' w'
    /\ params opt' = params opt /\ learning_rate opt' = learning_rate opt
    /\ next_loc w' = next_loc w /\ rng w' = rng w
    /\ (forall p, p ∉ params opt -> heap w' !! p = heap w !! p)
    /\ (forall p, grad <$> heap w' !! p = grad <$> heap w !! p)
    /\ (forall p c g, p ∈ params opt -> heap w !! p = Some c -> grad c = Some g ->
          state opt' !! p = Some (adam_moments (adam_state_of opt p c) g)
          /\ heap w' !! p
             = Some (mkParam (adam_update (learning_rate opt)
                                (adam_moments (adam_state_of opt p c) g) (data c))
                             (Some g))).
Proof.
  tidy. eexists _, _. split; [reflexivity|]. cbn [heap next_loc rng params learning_rate state].
  do 4 (split; [done|]). split; [|split].
  - intros p Hp. rewrite map_lookup_imap. destruct (heap w !! p) as [c|] eqn:Hc; [|done].
    simpl. rewrite map_lookup_imap, Hc. simpl. by rewrite decide_False.
  - intros p. rewrite map_lookup_imap. destruct (heap w !! p) as [c|] eqn:Hc; [|done].
    simpl. rewrite map_lookup_imap, Hc. simpl.
    destruct (decide (p ∈ params opt)); [|done].
    destruct (grad c) eqn:Eg; simpl; [reflexivity | by rewrite Eg].
  - intros p c g Hp Hc Hg. split.
    + apply lookup_union_Some_l. rewrite map_lookup_imap, Hc. simpl.
      rewrite decide_True by done. by rewrite Hg.
    + rewrite map_lookup_imap, Hc. simpl. rewrite map_lookup_imap, Hc. simpl.
      rewrite decide_True by done. rewrite Hg. simpl. by rewrite <- Hg.
Qed.

Lemma adam_state_of_data opt p c c' :
  data c = data c' -> adam_state_of opt p c = adam_state_of opt p c'.
Proof. unfold adam_state_of. by intros ->. Qed.

(** ** The two networks *)

Lemma build_networks_spec z img h w0 g d w1 :
  build_networks z img h w0 = Ok (g, d) w1 ->
  out_dim (gen g) z = Some img
  /\ has_batch_norm (gen g) = true
  /\ (exists body, gen g = Sequential (body ++ [Sigmoid]))
  /\ out_dim (disc d) img = Some 1
  /\ has_batch_norm (disc d) = false
  /\ per_example (disc d) = true
  /\ parameters (gen g) = seq (next_loc w0) 18
  /\ parameters (disc d) = seq (next_loc w0 + 18) 8.
Proof.
  unfold build_networks. intros H.
  apply bind_inv in H as (g' & wg & Hg & H).
  apply bind_inv in H as (d' & wd & Hd & H).
  unfold ret in H. injection H as -> -> ->.
  destruct (Generator_init_spec _ _ _ _ _ _ Hg) as (G1 & G2 & G3 & G4 & G5).
  destruct (Discriminator_init_spec _ _ _ _ _ Hd) as (D1 & D2 & D3 & D4 & D5).
  rewrite G5 in D4. auto 10.
Qed.

(** The generator and the discriminator own different parameters. *)
Lemma build_networks_disjoint z img h w0 g d w1 p :
  build_networks z img h w0 = Ok (g, d) w1 ->
  p ∈ parameters (gen g) -> p ∈ parameters (disc d) -> False.
Proof.
  intros H. destruct (build_networks_spec _ _ _ _ _ _ _ H) as (_&_&_&_&_&_& -> & ->).
  rewrite !elem_of_seq. lia.
Qed.

(** ** Modules that treat every example on its own *)

Lemma forward_per_example l :
  per_example l = true ->
  forall w, exists f : list R -> list R,
    forall x y w', forward l x w = Ok y w' -> w' = w /\ value y = map f (value x).
Proof.
  tidy.
  induction l as [W b i o|g b n|s|p| |ms IH] using Layer_nested_ind;
    intros Hp w; try discriminate Hp.
  - eexists. intros x y w'. cbn [forward]. unfold Linear_forward.
    destruct (row_lengths_ok i (value x)); [|discriminate].
    intros [= <- <-]. split; [done|]. reflexivity.
  - eexists. intros x y w'. cbn [forward]. unfold LeakyReLU_forward, ret.
    intros [= <- <-]. split; [done|]. reflexivity.
  - eexists. intros x y w'. cbn [forward]. unfold Sigmoid_forward, ret.
    intros [= <- <-]. split; [done|]. reflexivity.
  - cbn [per_example] in Hp.
    assert (exists f : list R -> list R,
              forall x y w', forward_all ms x w = Ok y w' -> w' = w /\ value y = map f (value x))
      as [f Hf]; [|exists f; intros x y w'; rewrite forward_Sequential; apply Hf].
    induction IH as [|m ms Hm _ IHms]; cbn [forallb] in Hp.
    + exists (fun r => r). intros x y w'. cbn [forward_all]. unfold ret.
      intros [= <- <-]. split; [done|]. by rewrite map_id.
    + apply andb_true_iff in Hp as [Hp1 Hp2].
      destruct (Hm Hp1 w) as [f1 Hf1]. destruct (IHms Hp2) as [f2 Hf2].
      exists (fun r => f2 (f1 r)). intros x y w' H. cbn [forward_all] in H.
      apply bind_inv in H as (y1 & w1 & H1 & H2).
      apply Hf1 in H1 as [-> E1]. apply Hf2 in H2 as [-> E2].
      split; [done|]. by rewrite E2, E1, map_map.
Qed.

(** ** Binary cross-entropy with logits *)

Lemma zip_with_map_r {A B C} (f : A -> B -> C) (g : A -> B) (l : list A) :
  zip_with f l (map g l) = map (fun a => f a (g a)) l.
Proof. induction l as [|a l IH]; simpl; [done|]. by rewrite IH. Qed.

Lemma F_bce_with_logits_ones (m : Matrix) :
  F_bce_with_logits m (ones_like_m m)
  = mean (concat (map (map (fun x => bce_with_logits x 1)) m)).
Proof.
  unfold F_bce_with_logits, ones_like_m. f_equal. f_equal.
  rewrite zip_with_map_r. apply map_ext. intros r. apply zip_with_map_r.
Qed.

Lemma F_bce_with_logits_zeros (m : Matrix) :
  F_bce_with_logits m (zeros_like_m m)
  = mean (concat (map (map (fun x => bce_with_logits x 0)) m)).
Proof.
  unfold F_bce_with_logits, zeros_like_m. f_equal. f_equal.
  rewrite zip_with_map_r. apply map_ext. intros r. apply zip_with_map_r.
Qed.

(** against target 1 a logit costs -log sigma(x), against target 0 it
    costs -log (1 - sigma(x)) *)
Lemma bce_with_logits_real x : bce_with_logits x 1 = (- ln (sigmoid x))%R.
Proof. unfold bce_with_logits. lra. Qed.

Lemma bce_with_logits_fake x : bce_with_logits x 0 = (- ln (1 - sigmoid x))%R.
Proof. unfold bce_with_logits. lra. Qed.

Lemma BCEWithLogitsLoss_like input (target : Matrix) w :
  map length target = map length (value input) ->
  BCEWithLogitsLoss input (constant target) w
  = Ok (mkScalar (F_bce_with_logits (value input) target)
                 (GradFn "BinaryCrossEntropyWithLogitsBackward"
                         [value input; target] [grad_fn input])) w.
Proof.
  intros H. unfold BCEWithLogitsLoss. cbn [value constant].
  by rewrite decide_True.
Qed.

Lemma BCEWithLogitsLoss_zeros input w :
  BCEWithLogitsLoss input (zeros_like_v input) w
  = Ok (mkScalar (F_bce_with_logits (value input) (zeros_like_m (value input)))
                 (GradFn "BinaryCrossEntropyWithLogitsBackward"
                         [value input; zeros_like_m (value input)] [grad_fn input])) w.
Proof.
  unfold BCEWithLogitsLoss, zeros_like_v, zeros_like_m. cbn [value constant].
  rewrite decide_True; [done|].
  rewrite map_map. apply map_ext. intros r. apply length_map.
Qed.

Lemma BCEWithLogitsLoss_ones input w :
  BCEWithLogitsLoss input (ones_like_v input) w
  = Ok (mkScalar (F_bce_with_logits (value input) (ones_like_m (value input)))
                 (GradFn "BinaryCrossEntropyWithLogitsBackward"
                         [value input; ones_like_m (value input)] [grad_fn input])) w.
Proof.
  unfold BCEWithLogitsLoss, ones_like_v, ones_like_m. cbn [value constant].
  rewrite decide_True; [done|].
  rewrite map_map. apply map_ext. intros r. apply length_map.
Qed.

(** ** The two losses *)

Lemma randn_ok n z w : exists noise w1, randn n z w = Ok noise w1.
Proof. eexists _, _. reflexivity. Qed.

Lemma Discriminator_forward_ok d img B x w :
  out_dim (disc d) img = Some 1 ->
  has_batch_norm (disc d) = false ->
  per_example (disc d) = true ->
  is_batch B img (value x) ->
  exists y,
    Discriminator_forward d x w = Ok y w
    /\ is_batch B 1 (value y)
    /\ leaves (grad_fn y) = leaves (grad_fn x) ∪ list_to_set (parameters (disc d)).
Proof.
  intros Hd Hbn Hpe Hx. unfold Discriminator_forward.
  destruct (forward_ok (disc d) img 1 B x w Hd Hx) as (y & w' & Hy & Hyb & _ & _ & Hl).
  { rewrite Hbn. discriminate. }
  destruct (forward_per_example (disc d) Hpe w) as [f Hf].
  destruct (Hf _ _ _ Hy) as [-> _]. eauto.
Qed.

Lemma get_discriminator_loss_spec z img h w0 g d wb (real : Var) n Br w :
  build_networks z img h w0 = Ok (g, d) wb ->
  is_batch Br img (value real) ->
  n <> 1 ->
  exists noise w1 gen_output w2 disc_out_fake disc_out_real loss,
    get_generator_noise n z w = Ok noise w1
    /\ Generator_forward g noise w1 = Ok gen_output w2
    /\ is_batch n img (value gen_output)
    /\ Discriminator_forward d (detach gen_output) w2 = Ok disc_out_fake w2
    /\ Discriminator_forward d real w2 = Ok disc_out_real w2
    /\ get_discriminator_loss g d BCEWithLogitsLoss real n z w = Ok loss w2
    /\ item loss
       = ((F_bce_with_logits (value disc_out_fake) (zeros_like_m (value disc_out_fake))
           + F_bce_with_logits (value disc_out_real) (ones_like_m (value disc_out_real)))
          / 2)%R
    /\ leaves (scalar_grad_fn loss)
       = leaves (grad_fn real) ∪ list_to_set (parameters (disc d))
    /\ scalar_grad_fn loss <> NoGrad
    /\ heap w2 = heap w /\ next_loc w2 = next_loc w.
Proof.
  intros Hb Hreal Hn.
  destruct (build_networks_spec _ _ _ _ _ _ _ Hb) as (G1 & G2 & _ & D1 & D2 & D3 & _ & _).
  unfold get_discriminator_loss, get_generator_noise.
  destruct (randn_ok n z w) as (noise & w1 & Hnoise).
  destruct (is_batch_randn _ _ _ _ _ Hnoise) as (Hnb & _ & Hh1 & Hn1 & _).
  destruct (forward_ok (gen g) z img n noise w1 G1 Hnb (fun _ => Hn))
    as (gen_output & w2 & Hgo & Hgob & Hh2 & Hn2 & _).
  destruct (Discriminator_forward_ok d img n (detach gen_output) w2 D1 D2 D3 Hgob)
    as (fake & Hfake & Hfb & Hfl).
  destruct (Discriminator_forward_ok d img Br real w2 D1 D2 D3 Hreal)
    as (dreal & Hdreal & Hrb & Hrl).
  eexists noise, w1, gen_output, w2, fake, dreal, _.
  split; [exact Hnoise|]. split; [exact Hgo|]. split; [exact Hgob|].
  split; [exact Hfake|]. split; [exact Hdreal|].
  split.
  { rewrite (bind_ok _ _ _ _ _ Hnoise).
    rewrite (bind_ok _ _ _ _ _ Hgo), (bind_ok _ _ _ _ _ Hfake).
    rewrite (bind_ok _ _ _ _ _ (BCEWithLogitsLoss_zeros fake w2)).
    rewrite (bind_ok _ _ _ _ _ Hdreal).
    rewrite (bind_ok _ _ _ _ _ (BCEWithLogitsLoss_ones dreal w2)).
    reflexivity. }
  cbn [item scalar_div scalar_add scalar_grad_fn leaves map].
  split; [reflexivity|].
  split.
  { rewrite Hfl, Hrl. cbn [detach grad_fn leaves]. clear. set_solver. }
  split; [discriminate|]. split; congruence.
Qed.

Lemma get_generator_loss_spec z img h w0 g d wb n w :
  build_networks z img h w0 = Ok (g, d) wb ->
  n <> 1 ->
  exists noise w1 gen_output w2 disc_preds loss,
    get_generator_noise n z w = Ok noise w1
    /\ is_batch n z (value noise) /\ grad_fn noise = NoGrad
    /\ rng w1 = rng w + n * z
    /\ Generator_forward g noise w1 = Ok gen_output w2
    /\ leaves (grad_fn gen_output) = list_to_set (parameters (gen g))
    /\ Discriminator_forward d gen_output w2 = Ok disc_preds w2
    /\ get_generator_loss g d BCEWithLogitsLoss n z w = Ok loss w2
    /\ item loss
       = F_bce_with_logits (value disc_preds) (ones_like_m (value disc_preds))
    /\ leaves (scalar_grad_fn loss)
       = list_to_set (parameters (gen g)) ∪ list_to_set (parameters (disc d))
    /\ scalar_grad_fn loss <> NoGrad
    /\ heap w2 = heap w /\ next_loc w2 = next_loc w.
Proof.
  intros Hb Hn.
  destruct (build_networks_spec _ _ _ _ _ _ _ Hb) as (G1 & G2 & _ & D1 & D2 & D3 & _ & _).
  unfold get_generator_loss, get_generator_noise.
  destruct (randn_ok n z w) as (noise & w1 & Hnoise).
  destruct (is_batch_randn _ _ _ _ _ Hnoise) as (Hnb & Hng & Hh1 & Hn1 & Hr1).
  destruct (forward_ok (gen g) z img n noise w1 G1 Hnb (fun _ => Hn))
    as (gen_output & w2 & Hgo & Hgob & Hh2 & Hn2 & Hgl).
  destruct (Discriminator_forward_ok d img n gen_output w2 D1 D2 D3 Hgob)
    as (preds & Hpreds & Hpb & Hpl).
  assert (Hgl' : leaves (grad_fn gen_output) = list_to_set (parameters (gen g))).
  { rewrite Hgl, Hng. cbn [leaves]. clear. set_solver. }
  eexists noise, w1, gen_output, w2, preds, _.
  split; [exact Hnoise|]. split; [exact Hnb|]. split; [exact Hng|]. split; [exact Hr1|].
  split; [exact Hgo|]. split; [exact Hgl'|]. split; [exact Hpreds|].
  split.
  { rewrite (bind_ok _ _ _ _ _ Hnoise).
    rewrite (bind_ok _ _ _ _ _ Hgo), (bind_ok _ _ _ _ _ Hpreds).
    rewrite (bind_ok _ _ _ _ _ (BCEWithLogitsLoss_ones preds w2)).
    reflexivity. }
  cbn [item scalar_grad_fn leaves map].
  split; [reflexivity|].
  split.
  { rewrite Hpl, Hgl'. clear. set_solver. }
  split; [discriminate|]. split; congruence.
Qed.

(** C2: the discriminator loss is the unweighted average of the binary
    cross-entropy of the discriminator's logits on the detached generator
    output against target 0 and of its logits on the real batch against
    target 1; no generator parameter is reachable from the loss's graph,
    so its backward pass leaves every generator parameter cell as it was. *)
Theorem get_discriminator_loss_average_and_detached
    z img h w0 g d wb (real : Matrix) n Br w :
  build_networks z img h w0 = Ok (g, d) wb ->
  is_batch Br img real ->
  n <> 1 ->
  exists noise w1 gen_output w2 logit_fake logit_real loss,
    get_generator_noise n z w = Ok noise w1
    /\ Generator_forward g noise w1 = Ok gen_output w2
    /\ Discriminator_forward d (detach gen_output) w2 = Ok logit_fake w2
    /\ grad_fn (detach gen_output) = NoGrad
    /\ Discriminator_forward d (constant real) w2 = Ok logit_real w2
    /\ get_discriminator_loss g d BCEWithLogitsLoss (constant real) n z w = Ok loss w2
    /\ item loss
       = ((F_bce_with_logits (value logit_fake) (zeros_like_m (value logit_fake))
           + F_bce_with_logits (value logit_real) (ones_like_m (value logit_real)))
          / 2)%R
    /\ (forall p, p ∈ parameters (gen g) -> p ∉ leaves (scalar_grad_fn loss))
    /\ (forall wa, exists wa',
          backward loss wa = Ok tt wa'
          /\ forall p, p ∈ parameters (gen g) -> heap wa' !! p = heap wa !! p).
Proof.
  intros Hb Hreal Hn.
  destruct (get_discriminator_loss_spec z img h w0 g d wb (constant real) n Br w Hb Hreal Hn)
    as (noise & w1 & gen_output & w2 & fake & dreal & loss
        & H1 & H2 & _ & H3 & H4 & H5 & H6 & H7 & H8 & _).
  assert (Hdis : forall p, p ∈ parameters (gen g) -> p ∉ leaves (scalar_grad_fn loss)).
  { intros p Hp. rewrite H7. cbn [constant grad_fn leaves].
    rewrite elem_of_union, elem_of_list_to_set. intros [Hempty|Hd].
    - by apply not_elem_of_empty in Hempty.
    - exact (build_networks_disjoint _ _ _ _ _ _ _ p Hb Hp Hd). }
  exists noise, w1, gen_output, w2, fake, dreal, loss.
  do 3 (split; [assumption|]). split; [reflexivity|]. do 3 (split; [assumption|]).
  split; [exact Hdis|].
  intros wa. destruct (backward_spec loss wa H8) as (wa' & Hbw & _ & _ & Hframe & _).
  exists wa'. split; [exact Hbw|]. intros p Hp. apply Hframe, Hdis, Hp.
Qed.

(** C3: the generator loss draws fresh noise of shape
    [num_images, z_dim] from the random stream, runs it through the
    generator with the graph kept (every generator parameter is reachable
    from the output and from the loss), scores the discriminator's logits
    on that output against a target of ones, and returns that binary
    cross-entropy with logits. *)
Theorem get_generator_loss_fresh_noise_target_real z img h w0 g d wb n w :
  build_networks z img h w0 = Ok (g, d) wb ->
  n <> 1 ->
  exists noise w1 gen_output w2 disc_preds loss,
    get_generator_noise n z w = Ok noise w1
    /\ value noise
       = map (fun i => map (fun c => normal_at (rng w + i * z + c)) (seq 0 z)) (seq 0 n)
    /\ is_batch n z (value noise)
    /\ rng w1 = rng w + n * z
    /\ Generator_forward g noise w1 = Ok gen_output w2
    /\ (forall p, p ∈ parameters (gen g) -> p ∈ leaves (grad_fn gen_output))
    /\ Discriminator_forward d gen_output w2 = Ok disc_preds w2
    /\ get_generator_loss g d BCEWithLogitsLoss n z w = Ok loss w2
    /\ item loss
       = F_bce_with_logits (value disc_preds) (ones_like_m (value disc_preds))
    /\ item loss
       = mean (concat (map (map (fun x => (- ln (sigmoid x))%R)) (value disc_preds)))
    /\ (forall p, p ∈ parameters (gen g) -> p ∈ leaves (scalar_grad_fn loss)).
Proof.
  intros Hb Hn.
  destruct (get_generator_loss_spec z img h w0 g d wb n w Hb Hn)
    as (noise & w1 & gen_output & w2 & preds & loss
        & H1 & H2 & _ & H3 & H4 & H5 & H6 & H7 & H8 & H9 & _).
  exists noise, w1, gen_output, w2, preds, loss.
  split; [exact H1|].
  split; [unfold get_generator_noise, randn in H1; by injection H1 as <- _|].
  do 3 (split; [assumption|]).
  split; [intros p Hp; rewrite H5; by apply elem_of_list_to_set|].
  do 3 (split; [assumption|]).
  split.
  { rewrite H8, F_bce_with_logits_ones. do 2 f_equal.
    apply map_ext. intros r. apply map_ext. intros x. apply bce_with_logits_real. }
  intros p Hp. rewrite H9. apply elem_of_union_l. by apply elem_of_list_to_set.
Qed.

(** ** Further properties of the two networks *)

(** X1: the discriminator has no batch normalisation, so it accepts every
    batch size, a single example included, and returns one logit per
    example; it draws no random number and changes no parameter. *)
Theorem Discriminator_forward_any_batch_size img h w0 d w1 (B : nat) (image : Var) w :
  Discriminator_init img h w0 = Ok d w1 ->
  is_batch B img (value image) ->
  exists state,
    Discriminator_forward d image w = Ok state w
    /\ is_batch B 1 (value state).
Proof.
  intros Hd Hx.
  destruct (Discriminator_init_spec _ _ _ _ _ Hd) as (D1 & D2 & D3 & _ & _).
  destruct (Discriminator_forward_ok d img B image w D1 D2 D3 Hx) as (y & Hy & Hyb & _).
  exists y. split; assumption.
Qed.

Lemma row_lengths_ok_Exists d (m : Matrix) :
  Exists (fun r => length r <> d) m -> row_lengths_ok d m = false.
Proof.
  intros H. apply not_true_is_false. intros Hok.
  apply row_lengths_ok_is_batch in Hok as [_ Hall].
  apply Exists_exists in H as (r & Hr & Hne). rewrite Forall_forall in Hall.
  exact (Hne (Hall r Hr)).
Qed.

(** X3: noise whose rows are not [z_dim] wide is refused by the
    generator's first linear layer with a RuntimeError, before any batch
    normalisation or dropout runs. *)
Theorem Generator_forward_rejects_wrong_latent_width z img h w0 g w1 (noise : Var) w :
  Generator_init z img h w0 = Ok g w1 ->
  Exists (fun r => length r <> z) (value noise) ->
  Generator_forward g noise w
  = Raise (RuntimeError "mat1 and mat2 shapes cannot be multiplied").
Proof.
  intros H Hx. destruct (Generator_init_at z img h w0) as (w' & H' & _).
  rewrite H' in H. injection H as <- <-.
  unfold Generator_forward. cbn [gen].
  rewrite forward_Sequential. cbn [generator_modules_at forward_all].
  apply bind_raise. unfold generator_block_at.
  rewrite forward_Sequential. cbn [forward_all forward].
  apply bind_raise. unfold Linear_forward.
  by rewrite (row_lengths_ok_Exists _ _ Hx).
Qed.

(** X4: an image batch whose rows are not [img_dim] wide is refused by
    the discriminator's first linear layer with a RuntimeError. *)
Theorem Discriminator_forward_rejects_wrong_image_width img h w0 d w1 (image : Var) w :
  Discriminator_init img h w0 = Ok d w1 ->
  Exists (fun r => length r <> img) (value image) ->
  Discriminator_forward d image w
  = Raise (RuntimeError "mat1 and mat2 shapes cannot be multiplied").
Proof.
  intros H Hx. destruct (Discriminator_init_at img h w0) as (w' & H' & _).
  rewrite H' in H. injection H as <- <-.
  unfold Discriminator_forward. cbn [disc].
  rewrite forward_Sequential. cbn [discriminator_modules_at forward_all].
  apply bind_raise. unfold discriminator_block_at.
  rewrite forward_Sequential. cbn [forward_all forward].
  apply bind_raise. unfold Linear_forward.
  by rewrite (row_lengths_ok_Exists _ _ Hx).
Qed.

(** X5: the generator owns 18 parameter tensors, the discriminator 8, and
    no tensor occurs twice among the 26: none is shared between the two
    networks or within one. *)
Theorem build_networks_parameters_are_distinct z img h w0 g d wb :
  build_networks z img h w0 = Ok (g, d) wb ->
  length (parameters (gen g)) = 18
  /\ length (parameters (disc d)) = 8
  /\ NoDup (parameters (gen g) ++ parameters (disc d)).
Proof.
  intros H. destruct (build_networks_spec _ _ _ _ _ _ _ H) as (_&_&_&_&_&_& -> & ->).
  rewrite !length_seq. split; [reflexivity|]. split; [reflexivity|].
  rewrite <- seq_app. apply NoDup_ListNoDup, seq_NoDup.
Qed.


(** ** The constructors allocate the cells they hand out *)

Lemma grows_refl w : grows w w.
Proof. split; [lia|]. split; [auto|]. intros p Hp. lia. Qed.

Lemma grows_trans w1 w2 w3 : grows w1 w2 -> grows w2 w3 -> grows w1 w3.
Proof.
  intros (N1 & K1 & A1) (N2 & K2 & A2). split; [lia|]. split; [auto|].
  intros p Hp. destruct (Nat.lt_ge_cases p (next_loc w2)).
  - apply K2, A1. lia.
  - apply A2. lia.
Qed.

Lemma new_parameter_grows t w p w' : new_parameter t w = Ok p w' -> grows w w'.
Proof.
  unfold new_parameter. intros [= _ <-]. cbn [grows heap next_loc]. unfold grows.
  cbn [heap next_loc]. split; [lia|]. split.
  - intros q Hq. destruct (decide (q = next_loc w)) as [->|Hne].
    + rewrite lookup_insert_eq. eauto.
    + by rewrite lookup_insert_ne.
  - intros q Hq. assert (q = next_loc w) as -> by lia.
    rewrite lookup_insert_eq. eauto.
Qed.

Lemma init_uniform_grows sh w t w' : init_uniform sh w = Ok t w' -> grows w w'.
Proof.
  tidy. unfold init_uniform. intros [= _ <-]. unfold grows. cbn [heap next_loc].
  split; [lia|]. split; [auto|]. intros p Hp. lia.
Qed.

Ltac grow_step lem :=
  match goal with
  | H : bind _ _ _ = Ok _ _ |- _ =>
      let H1 := fresh "G" in
      apply bind_inv in H as (? & ? & H1 & H); apply lem in H1
  end.

Ltac grow_done :=
  match goal with
  | H : ret _ _ = Ok _ _ |- _ => unfold ret in H; injection H as _ <-
  end;
  repeat (eapply grows_trans; [eassumption|]); apply grows_refl.

Lemma nn_Linear_grows i o w l w' : nn_Linear i o w = Ok l w' -> grows w w'.
Proof.
  tidy. unfold nn_Linear. intros H.
  grow_step init_uniform_grows. grow_step new_parameter_grows.
  grow_step init_uniform_grows. grow_step new_parameter_grows.
  grow_done.
Qed.

Lemma nn_BatchNorm1d_grows n w l w' : nn_BatchNorm1d n w = Ok l w' -> grows w w'.
Proof.
  unfold nn_BatchNorm1d. intros H.
  grow_step new_parameter_grows. grow_step new_parameter_grows.
  grow_done.
Qed.

Lemma get_generator_block_grows i o w l w' :
  get_generator_block i o w = Ok l w' -> grows w w'.
Proof.
  tidy. unfold get_generator_block. intros H.
  grow_step nn_Linear_grows. grow_step nn_BatchNorm1d_grows.
  grow_done.
Qed.

Lemma get_discriminator_block_grows i o w l w' :
  get_discriminator_block i o w = Ok l w' -> grows w w'.
Proof.
  tidy. unfold get_discriminator_block. intros H.
  grow_step nn_Linear_grows.
  grow_done.
Qed.

Lemma Generator_init_grows z img h w g w' :
  Generator_init z img h w = Ok g w' -> grows w w'.
Proof.
  tidy. unfold Generator_init. intros H.
  do 4 grow_step get_generator_block_grows. grow_step nn_Linear_grows.
  grow_done.
Qed.

Lemma Discriminator_init_grows img h w d w' :
  Discriminator_init img h w = Ok d w' -> grows w w'.
Proof.
  tidy. unfold Discriminator_init. intros H.
  do 3 grow_step get_discriminator_block_grows. grow_step nn_Linear_grows.
  grow_done.
Qed.

Lemma build_networks_inv z img h w0 g d wb :
  build_networks z img h w0 = Ok (g, d) wb ->
  exists wg, Generator_init z img h w0 = Ok g wg /\ Discriminator_init img h wg = Ok d wb.
Proof.
  unfold build_networks. intros H.
  apply bind_inv in H as (g' & wg & Hg & H).
  apply bind_inv in H as (d' & wd & Hd & H).
  unfold ret in H. injection H as E1 E2 E3.
  exists wg. rewrite <- E1, <- E2, <- E3. split; assumption.
Qed.

(** every parameter of the two networks has its cell in the world the
    constructors leave behind *)
Lemma build_networks_parameters_alive z img h w0 g d wb :
  build_networks z img h w0 = Ok (g, d) wb ->
  forall p, p ∈ parameters (gen g) \/ p ∈ parameters (disc d) -> is_Some (heap wb !! p).
Proof.
  tidy. intros H.
  destruct (build_networks_spec _ _ _ _ _ _ _ H) as (_&_&_&_&_&_& Pg & Pd).
  destruct (build_networks_inv _ _ _ _ _ _ _ H) as (wg & Hg & Hd).
  destruct (Generator_init_spec _ _ _ _ _ _ Hg) as (_ & _ & _ & _ & Ng).
  destruct (Discriminator_init_spec _ _ _ _ _ Hd) as (_ & _ & _ & _ & Nd).
  destruct (Generator_init_grows _ _ _ _ _ _ Hg) as (_ & _ & Ag).
  destruct (Discriminator_init_grows _ _ _ _ _ Hd) as (_ & Kd & Ad).
  intros p [Hp|Hp].
  - rewrite Pg, elem_of_seq in Hp. apply Kd, Ag. lia.
  - rewrite Pd, elem_of_seq in Hp. apply Ad. lia.
Qed.

(** ** One optimizer update: [zero_grad], a loss, [backward], [step] *)

Lemma steps_taken_adam_state_of opt p c : step (adam_state_of opt p c) = steps_taken opt p.
Proof. unfold adam_state_of, steps_taken. by destruct (state opt !! p). Qed.

Lemma update_counts opt w wz loss wl wg opt' w' :
  zero_grad opt w = Ok tt wz ->
  heap wl = heap wz ->
  scalar_grad_fn loss <> NoGrad ->
  backward loss wl = Ok tt wg ->
  Optimizer_step opt wg = Ok opt' w' ->
  params opt' = params opt
  /\ (forall p, is_Some (heap w' !! p) <-> is_Some (heap w !! p))
  /\ (forall p, p ∈ params opt -> p ∈ leaves (scalar_grad_fn loss) ->
        is_Some (heap w !! p) -> steps_taken opt' p = S (steps_taken opt p))
  /\ (forall p, p ∉ params opt -> state opt' !! p = state opt !! p).
Proof.
  tidy. intros Z Hh Hng B S.
  destruct (zero_grad_spec opt w) as (wz' & Hz & _ & _ & _ & Dz).
  rewrite Z in Hz. injection Hz as <-.
  destruct (backward_spec loss wl Hng) as (wg' & Hb & _ & _ & _ & Db & Gb).
  rewrite B in Hb. injection Hb as <-.
  destruct (Optimizer_step_spec opt wg) as (o' & w'' & Hs & Hp & _ & _ & _ & _ & Gs & Us).
  rewrite S in Hs. injection Hs as <- <-.
  split; [exact Hp|]. split; [|split].
  - intros p. rewrite <- (fmap_is_Some grad), Gs, fmap_is_Some.
    rewrite <- (fmap_is_Some data), Db, Hh, Dz, fmap_is_Some. reflexivity.
  - intros p Hpo Hpl [c Hc].
    specialize (Dz p). rewrite Hc in Dz.
    destruct (heap wz !! p) as [cz|] eqn:Hcz; [|discriminate Dz].
    destruct (Gb p cz Hpl) as (g & Hcg); [by rewrite Hh|].
    destruct (Us p _ g Hpo Hcg eq_refl) as [U _].
    unfold steps_taken at 1. rewrite U. cbn [from_option adam_moments step].
    by rewrite steps_taken_adam_state_of.
  - intros p Hp'. unfold Optimizer_step in S. injection S as <- _. cbn [state].
    rewrite lookup_union, map_lookup_imap.
    destruct (heap wg !! p) as [c|]; simpl.
    + rewrite decide_False by done. by destruct (state opt !! p).
    + by destruct (state opt !! p).
Qed.


(** ** One training step *)

Section Step.

Variables (hidden_dim : nat) (w0 wb : World).
Hypothesis built :
  build_networks z_dim image_size hidden_dim w0 = Ok (generator, discriminator) wb.

Lemma discriminator_update_spec opt (flat : Matrix) B w :
  is_batch B image_size flat ->
  B <> 1 ->
  exists wz disc_loss wl wg opt' w',
    zero_grad opt w = Ok tt wz
    /\ get_discriminator_loss generator discriminator criterion (constant flat) B z_dim wz
       = Ok disc_loss wl
    /\ backward disc_loss wl = Ok tt wg
    /\ Optimizer_step opt wg = Ok opt' w'
    /\ discriminator_update opt (constant flat) B w = Ok (disc_loss, opt') w'
    /\ params opt' = params opt
    /\ next_loc w' = next_loc w
    /\ (params opt = parameters (disc discriminator) ->
        forall p, p ∈ parameters (gen generator) -> heap w' !! p = heap w !! p)
    /\ (params opt = parameters (disc discriminator) ->
        forall p c, p ∈ parameters (disc discriminator) -> heap w !! p = Some c ->
          exists g,
            state opt' !! p = Some (adam_moments (adam_state_of opt p c) g)
            /\ heap w' !! p
               = Some (mkParam (adam_update (learning_rate opt)
                                  (adam_moments (adam_state_of opt p c) g) (data c))
                               (Some g))).
Proof using built.
  intros Hflat HB. unfold discriminator_update.
  destruct (zero_grad_spec opt w) as (wz & Hz & Nz & _ & Fz & Dz).
  destruct (get_discriminator_loss_spec z_dim image_size hidden_dim w0 generator discriminator wb
              (constant flat) B B wz built Hflat HB)
    as (noise & w1 & gen_output & wl & fake & dreal & loss
        & _ & _ & _ & _ & _ & Hl & _ & Hleaves & Hng & Hhl & Nl).
  destruct (backward_spec loss wl Hng) as (wg & Hbw & Ng & _ & Fg & _ & Gg).
  destruct (Optimizer_step_spec opt wg) as (opt' & w' & Hs & Hp & _ & Ns & _ & Fs & _ & Us).
  exists wz, loss, wl, wg, opt', w'.
  do 4 (split; [assumption|]).
  split.
  { rewrite (bind_ok _ _ _ _ _ Hz), (bind_ok _ _ _ _ _ Hl), (bind_ok _ _ _ _ _ Hbw),
      (bind_ok _ _ _ _ _ Hs). reflexivity. }
  split; [exact Hp|]. split; [congruence|].
  split; cycle 1.
  { intros Hopt p c Hpd Hc.
    specialize (Dz p). rewrite Hc in Dz.
    destruct (heap wz !! p) as [cz|] eqn:Hcz; [|discriminate Dz].
    injection Dz as Dz.
    destruct (Gg p cz) as (g & Hcg).
    { rewrite Hleaves. apply elem_of_union_r, elem_of_list_to_set, Hpd. }
    { rewrite Hhl. exact Hcz. }
    destruct (Us p _ g ltac:(rewrite Hopt; exact Hpd) Hcg eq_refl) as [U1 U2].
    rewrite (adam_state_of_data opt p (mkParam (data cz) (Some g)) c Dz) in U1, U2.
    cbn [data] in U2. rewrite Dz in U2.
    exists g. split; assumption. }
  intros Hopt p Hpg.
  assert (Hnd : p ∉ parameters (disc discriminator)).
  { intros Hd. exact (build_networks_disjoint _ _ _ _ _ _ _ p built Hpg Hd). }
  rewrite Fs by (rewrite Hopt; exact Hnd). rewrite Fg.
  - rewrite Hhl. apply Fz. rewrite Hopt. exact Hnd.
  - rewrite Hleaves. cbn [constant grad_fn leaves].
    rewrite elem_of_union, elem_of_list_to_set. intros [He|Hd]; [|exact (Hnd Hd)].
    exact (not_elem_of_empty (C := gset nat) p He).
Qed.

Lemma generator_update_spec opt B w :
  B <> 1 ->
  exists wz gen_loss wl wg opt' w',
    zero_grad opt w = Ok tt wz
    /\ get_generator_loss generator discriminator criterion B z_dim wz = Ok gen_loss wl
    /\ backward gen_loss wl = Ok tt wg
    /\ Optimizer_step opt wg = Ok opt' w'
    /\ generator_update opt B w = Ok (gen_loss, opt') w'
    /\ params opt' = params opt
    /\ next_loc w' = next_loc w
    /\ (forall p, data <$> heap wz !! p = data <$> heap w !! p)
    /\ (forall p, p ∉ params opt -> data <$> heap w' !! p = data <$> heap w !! p).
Proof using built.
  intros HB. unfold generator_update.
  destruct (zero_grad_spec opt w) as (wz & Hz & Nz & _ & _ & Dz).
  destruct (get_generator_loss_spec z_dim image_size hidden_dim w0 generator discriminator wb
              B wz built HB)
    as (noise & w1 & gen_output & wl & preds & loss
        & _ & _ & _ & _ & _ & _ & _ & Hl & _ & _ & Hng & Hhl & Nl).
  destruct (backward_spec loss wl Hng) as (wg & Hbw & Ng & _ & _ & Dg & _).
  destruct (Optimizer_step_spec opt wg) as (opt' & w' & Hs & Hp & _ & Ns & _ & Fs & _).
  exists wz, loss, wl, wg, opt', w'.
  do 4 (split; [assumption|]).
  split.
  { rewrite (bind_ok _ _ _ _ _ Hz), (bind_ok _ _ _ _ _ Hl), (bind_ok _ _ _ _ _ Hbw),
      (bind_ok _ _ _ _ _ Hs). reflexivity. }
  split; [exact Hp|]. split; [congruence|]. split; [exact Dz|].
  intros p Hp'. rewrite (Fs p Hp'), Dg, Hhl. apply Dz.
Qed.

Lemma view_images_ok B (x : Matrix) w :
  is_batch B image_size x -> exists images, view_images x w = Ok images w.
Proof.
  intros Hx. unfold view_images. rewrite (numel_is_batch _ _ _ Hx).
  rewrite Nat.Div0.mod_mul. cbn [Nat.eqb]. unfold ret. eauto.
Qed.

(** the generator, run on fresh noise, yields a batch of images *)
Lemma generate_ok B w :
  B <> 1 ->
  exists fake_noise w1 fake w2,
    get_generator_noise B z_dim w = Ok fake_noise w1
    /\ Generator_forward generator fake_noise w1 = Ok fake w2
    /\ is_batch B image_size (value fake).
Proof using built.
  intros HB.
  destruct (build_networks_spec _ _ _ _ _ _ _ built) as (G1 & _).
  unfold get_generator_noise.
  destruct (randn_ok B z_dim w) as (noise & w1 & Hnoise).
  destruct (is_batch_randn _ _ _ _ _ Hnoise) as (Hnb & _).
  destruct (forward_ok (gen generator) z_dim image_size B noise w1 G1 Hnb (fun _ => HB))
    as (fake & w2 & Hf & Hfb & _).
  exists noise, w1, fake, w2. auto.
Qed.

Lemma record_losses_spec epoch st disc_opt gen_opt r B disc_loss gen_loss w :
  B <> 1 ->
  display_step <> 0 ->
  exists st' w',
    record_losses epoch st disc_opt gen_opt r B disc_loss gen_loss w = Ok st' w'
    /\ G_losses st' = G_losses st ++ [(mean_discriminator_loss st + item disc_loss / INR B)%R]
    /\ D_losses st' = D_losses st ++ [(mean_generator_loss st + item gen_loss / INR B)%R]
    /\ cur_step st' = cur_step st + 1
    /\ gen_optimizer st' = gen_opt /\ disc_optimizer st' = disc_opt
    /\ cur_batch_size st' = Some B /\ real st' = Some r
    /\ (if cur_step st mod display_step =? 0
        then mean_generator_loss st' = 0%R /\ mean_discriminator_loss st' = 0%R
             /\ stdout st'
                = stdout st
                  ++ [mkReport epoch num_epochs (cur_step st)
                               (num_epochs * loader_len (length data_train) batch_size)
                               (mean_generator_loss st + item gen_loss / INR B)%R
                               (mean_discriminator_loss st + item disc_loss / INR B)%R]
             /\ exists grid, img_list st' = img_list st ++ [grid]
        else mean_generator_loss st' = (mean_generator_loss st + item gen_loss / INR B)%R
             /\ mean_discriminator_loss st'
                = (mean_discriminator_loss st + item disc_loss / INR B)%R
             /\ stdout st' = stdout st /\ img_list st' = img_list st).
Proof using built.
  intros HB Hds. unfold record_losses.
  destruct (Nat.eqb_spec display_step 0) as [E|_]; [contradiction|].
  destruct (cur_step st mod display_step =? 0).
  - destruct (generate_ok B w HB) as (noise & w1 & fake & w2 & Hn & Hf & Hfb).
    destruct (view_images_ok B (value (detach fake)) w2 Hfb) as (images & Hv).
    rewrite (bind_ok _ _ _ _ _ Hn), (bind_ok _ _ _ _ _ Hf), (bind_ok _ _ _ _ _ Hv).
    eexists _, _. split; [reflexivity|]. cbn.
    do 7 (split; [reflexivity|]). do 3 (split; [reflexivity|]). eexists. reflexivity.
  - eexists _, _. split; [reflexivity|]. cbn.
    do 7 (split; [reflexivity|]). do 3 (split; [reflexivity|]). reflexivity.
Qed.

Lemma view_flat_ok (images : list Image) w :
  images <> [] ->
  Forall (fun img => length (concat (concat img)) = image_size) images ->
  exists flat,
    view_flat images w = Ok flat w /\ is_batch (length images) image_size flat.
Proof.
  intros Hne Himg. exists (map (fun img => concat (concat img)) images). split.
  - unfold view_flat. destruct images; [contradiction|reflexivity].
  - split; [apply length_map|]. apply Forall_forall. intros r Hr.
    apply list_elem_of_In, in_map_iff in Hr. destruct Hr as (img & <- & Hin).
    rewrite Forall_forall in Himg. apply Himg. by apply list_elem_of_In.
Qed.

Lemma train_batch_spec epoch st batch w :
  good_batch batch ->
  display_step <> 0 ->
  exists flat disc_loss disc_opt w1 gen_loss gen_opt w2 st' w',
    view_flat (fst batch) w = Ok flat w
    /\ is_batch (length (fst batch)) image_size flat
    /\ discriminator_update (disc_optimizer st) (constant flat) (length (fst batch)) w
       = Ok (disc_loss, disc_opt) w1
    /\ generator_update (gen_optimizer st) (length (fst batch)) w1 = Ok (gen_loss, gen_opt) w2
    /\ record_losses epoch st disc_opt gen_opt (constant flat) (length (fst batch))
                     disc_loss gen_loss w2 = Ok st' w'
    /\ train_batch epoch st batch w = Ok st' w'.
Proof using built.
  intros [Hlen Himg] Hds.
  assert (HB : length (fst batch) <> 1) by lia.
  destruct (view_flat_ok (fst batch) w) as (flat & Hflat & Hfb); [|exact Himg|].
  { intros E. rewrite E in Hlen. cbn in Hlen. lia. }
  destruct (discriminator_update_spec (disc_optimizer st) flat _ w Hfb HB)
    as (_ & dl & _ & _ & dopt & w1 & _ & _ & _ & _ & Hd & _).
  destruct (generator_update_spec (gen_optimizer st) _ w1 HB)
    as (_ & gl & _ & _ & gopt & w2 & _ & _ & _ & _ & Hg & _).
  destruct (record_losses_spec epoch st dopt gopt (constant flat) _ dl gl w2 HB Hds)
    as (st' & w' & Hr & _).
  exists flat, dl, dopt, w1, gl, gopt, w2, st', w'.
  do 5 (split; [assumption|]).
  unfold train_batch.
  rewrite (bind_ok _ _ _ _ _ Hflat), (bind_ok _ _ _ _ _ Hd), (bind_ok _ _ _ _ _ Hg).
  exact Hr.
Qed.

(** C4: in every iteration of the training loop the discriminator's
    optimizer step is taken first, and the generator loss of that
    iteration is computed afterwards, in the world that step left behind
    (only the generator optimizer's [zero_grad] lies in between, and it
    changes no parameter value); that generator loss is the one the
    iteration records. *)
Theorem train_batch_discriminator_step_precedes_generator_loss epoch st batch w :
  good_batch batch ->
  display_step <> 0 ->
  exists flat wz disc_loss wl wg disc_opt w1 wz' gen_loss wl' gen_opt w2 st' w',
    view_flat (fst batch) w = Ok flat w
    /\ zero_grad (disc_optimizer st) w = Ok tt wz
    /\ get_discriminator_loss generator discriminator criterion (constant flat)
                              (length (fst batch)) z_dim wz = Ok disc_loss wl
    /\ backward disc_loss wl = Ok tt wg
    /\ Optimizer_step (disc_optimizer st) wg = Ok disc_opt w1
    /\ zero_grad (gen_optimizer st) w1 = Ok tt wz'
    /\ (forall p, data <$> heap wz' !! p = data <$> heap w1 !! p)
    /\ get_generator_loss generator discriminator criterion (length (fst batch)) z_dim wz'
       = Ok gen_loss wl'
    /\ generator_update (gen_optimizer st) (length (fst batch)) w1 = Ok (gen_loss, gen_opt) w2
    /\ train_batch epoch st batch w = Ok st' w'
    /\ disc_optimizer st' = disc_opt
    /\ D_losses st'
       = D_losses st
         ++ [(mean_generator_loss st + item gen_loss / INR (length (fst batch)))%R].
Proof using built.
  intros Hgood Hds. pose proof Hgood as [Hlen Himg].
  assert (HB : length (fst batch) <> 1) by lia.
  destruct (view_flat_ok (fst batch) w) as (flat & Hflat & Hfb); [|exact Himg|].
  { intros E. rewrite E in Hlen. cbn in Hlen. lia. }
  destruct (discriminator_update_spec (disc_optimizer st) flat _ w Hfb HB)
    as (wz & dl & wl & wg & dopt & w1 & D1 & D2 & D3 & D4 & Hd & _).
  destruct (generator_update_spec (gen_optimizer st) _ w1 HB)
    as (wz' & gl & wl' & wg' & gopt & w2 & G1 & G2 & _ & _ & Hg & _ & _ & G3 & _).
  destruct (record_losses_spec epoch st dopt gopt (constant flat) _ dl gl w2 HB Hds)
    as (st' & w' & Hr & _ & R2 & _ & _ & R5 & _).
  exists flat, wz, dl, wl, wg, dopt, w1, wz', gl, wl', gopt, w2, st', w'.
  do 9 (split; [assumption|]).
  split; [|split; assumption].
  unfold train_batch.
  rewrite (bind_ok _ _ _ _ _ Hflat), (bind_ok _ _ _ _ _ Hd), (bind_ok _ _ _ _ _ Hg).
  exact Hr.
Qed.




(** C8: an iteration appends the running discriminator loss
    ([mean_discriminator_loss], just increased by this batch's
    discriminator loss over the batch size) to [G_losses], and the running
    generator loss ([mean_generator_loss]) to [D_losses]. *)
Theorem train_batch_appends_under_swapped_names epoch st batch w :
  good_batch batch ->
  display_step <> 0 ->
  exists flat disc_loss disc_opt w1 gen_loss gen_opt w2 st' w',
    view_flat (fst batch) w = Ok flat w
    /\ discriminator_update (disc_optimizer st) (constant flat) (length (fst batch)) w
       = Ok (disc_loss, disc_opt) w1
    /\ generator_update (gen_optimizer st) (length (fst batch)) w1 = Ok (gen_loss, gen_opt) w2
    /\ train_batch epoch st batch w = Ok st' w'
    /\ G_losses st'
       = G_losses st
         ++ [(mean_discriminator_loss st + item disc_loss / INR (length (fst batch)))%R]
    /\ D_losses st'
       = D_losses st
         ++ [(mean_generator_loss st + item gen_loss / INR (length (fst batch)))%R].
Proof using built.
  intros Hgood Hds.
  destruct (train_batch_spec epoch st batch w Hgood Hds)
    as (flat & dl & dopt & w1 & gl & gopt & w2 & st' & w' & H1 & _ & H2 & H3 & H4 & H5).
  destruct Hgood as [Hlen _].
  assert (HB : length (fst batch) <> 1) by lia.
  destruct (record_losses_spec epoch st dopt gopt (constant flat) _ dl gl w2 HB Hds)
    as (st2 & w2' & Hr & R1 & R2 & _).
  rewrite H4 in Hr. injection Hr as <- <-.
  exists flat, dl, dopt, w1, gl, gopt, w2, st', w'. auto 10.
Qed.

(** C9: the report and the snapshot are made exactly when
    [cur_step % display_step == 0]; [cur_step] starts at 0, so the first
    batch of training already prints a report and stores a snapshot in
    [img_list], and the running means it prints hold that single batch's
    contribution only. *)
Theorem first_batch_already_reports epoch st batch w :
  good_batch batch ->
  display_step <> 0 ->
  exists flat disc_loss disc_opt w1 gen_loss gen_opt w2 st' w',
    view_flat (fst batch) w = Ok flat w
    /\ discriminator_update (disc_optimizer st) (constant flat) (length (fst batch)) w
       = Ok (disc_loss, disc_opt) w1
    /\ generator_update (gen_optimizer st) (length (fst batch)) w1 = Ok (gen_loss, gen_opt) w2
    /\ train_batch epoch st batch w = Ok st' w'
    /\ (cur_step st mod display_step = 0 ->
        length (stdout st') = S (length (stdout st))
        /\ length (img_list st') = S (length (img_list st)))
    /\ (cur_step st mod display_step <> 0 ->
        stdout st' = stdout st /\ img_list st' = img_list st)
    /\ (st = initial_loop ->
        cur_step st = 0
        /\ stdout st'
           = [mkReport epoch num_epochs 0
                       (num_epochs * loader_len (length data_train) batch_size)
                       (item gen_loss / INR (length (fst batch)))%R
                       (item disc_loss / INR (length (fst batch)))%R]
        /\ exists grid, img_list st' = [grid]).
Proof using built.
  intros Hgood Hds.
  destruct (train_batch_spec epoch st batch w Hgood Hds)
    as (flat & dl & dopt & w1 & gl & gopt & w2 & st' & w' & H1 & _ & H2 & H3 & H4 & H5).
  destruct Hgood as [Hlen _].
  assert (HB : length (fst batch) <> 1) by lia.
  destruct (record_losses_spec epoch st dopt gopt (constant flat) _ dl gl w2 HB Hds)
    as (st2 & w2' & Hr & _ & _ & _ & _ & _ & _ & _ & R).
  rewrite H4 in Hr. injection Hr as <- <-.
  exists flat, dl, dopt, w1, gl, gopt, w2, st', w'.
  do 4 (split; [assumption|]).
  split; [|split].
  - intros E. rewrite E in R. cbn [Nat.eqb] in R.
    destruct R as (_ & _ & -> & grid & ->). rewrite !length_app. cbn [length]. lia.
  - intros E. apply Nat.eqb_neq in E. rewrite E in R.
    destruct R as (_ & _ & -> & ->). split; reflexivity.
  - intros ->. cbn [initial_loop cur_step stdout img_list mean_generator_loss
                    mean_discriminator_loss] in R |- *.
    rewrite Nat.Div0.mod_0_l in R. cbn [Nat.eqb] in R.
    destruct R as (_ & _ & -> & grid & ->).
    split; [reflexivity|]. split; [|exists grid; reflexivity].
    cbn [app]. f_equal. f_equal; lra.
Qed.

(** ** Batches of an epoch *)

Lemma batch_sampler_go_lengths {A} bs (sampler : list A) : forall batch,
  0 < bs -> length batch < bs ->
  map length (batch_sampler_go bs false sampler batch)
  = replicate ((length batch + length sampler) / bs) bs
    ++ (if (length batch + length sampler) mod bs =? 0 then []
        else [(length batch + length sampler) mod bs]).
Proof.
  induction sampler as [|idx rest IH]; intros batch Hbs Hlt.
  - cbn [batch_sampler_go length]. rewrite Nat.add_0_r.
    rewrite Nat.div_small, Nat.mod_small by lia. cbn [replicate app negb andb].
    destruct batch as [|a batch]; [reflexivity|].
    cbn [length Nat.ltb Nat.leb Nat.eqb map andb]. reflexivity.
  - cbn [batch_sampler_go length]. rewrite length_app. cbn [length].
    destruct (Nat.eqb_spec (length batch + 1) bs) as [E|NE].
    + cbn [map]. rewrite length_app. cbn [length]. rewrite IH by (cbn [length]; lia).
      cbn [length]. rewrite E.
      replace (length batch + S (length rest)) with (length rest + 1 * bs) by lia.
      rewrite Nat.div_add, Nat.Div0.mod_add by lia.
      replace (0 + length rest) with (length rest) by lia.
      replace (length rest / bs + 1) with (S (length rest / bs)) by lia.
      reflexivity.
    + rewrite IH by (rewrite ?length_app; cbn [length]; lia).
      rewrite length_app. cbn [length].
      replace (length batch + 1 + length rest) with (length batch + S (length rest)) by lia.
      reflexivity.
Qed.

Lemma BatchSampler_lengths {A} (sampler : list A) bs :
  0 < bs ->
  map length (BatchSampler sampler bs false)
  = replicate (length sampler / bs) bs
    ++ (if length sampler mod bs =? 0 then [] else [length sampler mod bs]).
Proof.
  intros Hbs. unfold BatchSampler.
  rewrite batch_sampler_go_lengths by (cbn [length]; lia). reflexivity.
Qed.

(** every index of a batch comes from the sampler *)
Lemma batch_sampler_go_elements {A} bs drop (sampler : list A) : forall batch b x,
  In b (batch_sampler_go bs drop sampler batch) -> In x b -> In x (batch ++ sampler).
Proof.
  induction sampler as [|idx rest IH]; intros batch b x Hb Hx.
  - cbn [batch_sampler_go] in Hb.
    destruct ((0 <? length batch) && negb drop); [|contradiction].
    destruct Hb as [<-|[]]. rewrite app_nil_r. exact Hx.
  - cbn [batch_sampler_go] in Hb.
    destruct (length (batch ++ [idx]) =? bs).
    + destruct Hb as [<-|Hb].
      * apply in_app_iff in Hx as [Hx|[<-|[]]]; apply in_app_iff; [by left|right; by left].
      * specialize (IH [] b x Hb Hx). cbn [app] in IH.
        apply in_app_iff. right. by right.
    + specialize (IH _ b x Hb Hx). rewrite <- app_assoc in IH. exact IH.
Qed.

(** the loader yields [ceil(n / batch_size)] batches *)
Lemma loader_len_spec n bs :
  0 < bs ->
  loader_len n bs = n / bs + (if n mod bs =? 0 then 0 else 1).
Proof.
  intros Hbs. unfold loader_len.
  pose proof (Nat.div_mod_eq n bs) as E.
  pose proof (Nat.mod_upper_bound n bs ltac:(lia)) as Hm.
  destruct (Nat.eqb_spec (n mod bs) 0) as [Z|NZ].
  - replace (n + bs - 1) with ((bs - 1) + (n / bs) * bs) by nia.
    rewrite Nat.div_add by lia. rewrite Nat.div_small by lia. lia.
  - replace (n + bs - 1) with ((n mod bs - 1) + (n / bs + 1) * bs) by nia.
    rewrite Nat.div_add by lia. rewrite Nat.div_small by lia. lia.
Qed.

(** ** Further properties of the loader and of the reshaping *)

Lemma batch_sampler_go_concat {A} bs (sampler : list A) : forall batch,
  concat (batch_sampler_go bs false sampler batch) = batch ++ sampler.
Proof.
  induction sampler as [|idx rest IH]; intros batch.
  - cbn [batch_sampler_go negb]. rewrite andb_true_r, app_nil_r.
    destruct batch as [|a batch]; [reflexivity|].
    cbn [length Nat.ltb Nat.leb concat]. by rewrite app_nil_r.
  - cbn [batch_sampler_go].
    destruct (length (batch ++ [idx]) =? bs).
    + cbn [concat]. rewrite IH. cbn [app]. by rewrite <- app_assoc.
    + rewrite IH. by rewrite <- app_assoc.
Qed.

Lemma map_nth_seq_all {A} (d : list A) (def : A) :
  map (fun i => nth i d def) (seq 0 (length d)) = d.
Proof.
  induction d as [|a d IH]; [reflexivity|].
  cbn [length seq map nth]. f_equal.
  rewrite <- seq_shift, map_map. exact IH.
Qed.

Lemma length_train_loader e :
  1 <= batch_size ->
  Permutation (epoch_order e) (seq 0 (length data_train)) ->
  length (train_loader e) = loader_len (length data_train) batch_size.
Proof.
  intros Hbs Hperm. unfold train_loader. rewrite length_map.
  rewrite <- (length_map length), BatchSampler_lengths by lia.
  rewrite (Permutation_length Hperm), length_seq.
  rewrite length_app, length_replicate, loader_len_spec by lia.
  by destruct (length data_train mod batch_size =? 0).
Qed.

(** X8: an epoch over a dataset that is not empty, in batches of at
    least one, shows every example exactly once: the
    images of its batches, put end to end, are a reordering of the
    dataset's images (and likewise for the labels), every batch holds at
    least one and at most [batch_size] examples, and the number of
    batches is [len(train_loader)], the figure the progress line
    multiplies by the number of epochs. *)
Theorem train_loader_visits_every_example_once e :
  data_train <> [] ->
  1 <= batch_size ->
  Permutation (epoch_order e) (seq 0 (length data_train)) ->
  Permutation (concat (map fst (train_loader e))) (map fst data_train)
  /\ Permutation (concat (map snd (train_loader e))) (map snd data_train)
  /\ Forall (fun b => 1 <= length (fst b) <= batch_size /\ length (snd b) = length (fst b))
            (train_loader e)
  /\ length (train_loader e) = loader_len (length data_train) batch_size.
Proof.
  intros _ Hbs Hperm.
  cut (Permutation (concat (map fst (train_loader e))) (map fst data_train)
       /\ Permutation (concat (map snd (train_loader e))) (map snd data_train)
       /\ Forall (fun b => 1 <= length (fst b) <= batch_size
                           /\ length (snd b) = length (fst b))
                 (train_loader e)).
  { intros (H1 & H2 & H3). pose proof (length_train_loader e Hbs Hperm). auto. }
  unfold train_loader.
  set (batches := BatchSampler (epoch_order e) batch_size false).
  assert (Hcat : concat batches = epoch_order e).
  { unfold batches, BatchSampler. by rewrite batch_sampler_go_concat. }
  assert (Hall : Permutation (map (fun i => nth i data_train ([], 0)) (epoch_order e))
                             data_train).
  { rewrite (Permutation_map _ Hperm). by rewrite map_nth_seq_all. }
  rewrite !map_map. cbn [fst snd].
  split; [|split].
  - rewrite (map_ext _ (map (fun i => fst (nth i data_train ([], 0)))))
      by (intros idxs; apply map_map).
    rewrite <- concat_map, Hcat. rewrite <- map_map. by apply Permutation_map.
  - rewrite (map_ext _ (map (fun i => snd (nth i data_train ([], 0)))))
      by (intros idxs; apply map_map).
    rewrite <- concat_map, Hcat. rewrite <- map_map. by apply Permutation_map.
  - apply Forall_forall. intros b Hb. apply list_elem_of_In, in_map_iff in Hb.
    destruct Hb as (idxs & <- & Hidxs). cbn [fst snd]. rewrite !length_map.
    split; [|reflexivity].
    assert (Hin : In (length idxs) (map length batches)) by (apply in_map_iff; eauto).
    unfold batches in Hin. rewrite BatchSampler_lengths in Hin by lia.
    pose proof (Nat.mod_upper_bound (length (epoch_order e)) batch_size ltac:(lia)).
    apply in_app_iff in Hin as [Hin|Hin].
    + apply list_elem_of_In, elem_of_replicate in Hin as [-> _]. lia.
    + destruct (Nat.eqb_spec (length (epoch_order e) mod batch_size) 0); [contradiction|].
      destruct Hin as [<-|[]]. lia.
Qed.

Lemma batch_sampler_go_fill {A} d (r : list A) : forall rest acc,
  r <> [] -> length acc + length r = d ->
  batch_sampler_go d true (r ++ rest) acc
  = (acc ++ r) :: batch_sampler_go d true rest [].
Proof.
  induction r as [|a r IH]; intros rest acc Hne Hlen; [contradiction|].
  cbn [app batch_sampler_go]. rewrite length_app. cbn [length] in *.
  destruct r as [|b r].
  - cbn [length] in Hlen. replace (length acc + 1 =? d) with true
      by (symmetry; apply Nat.eqb_eq; lia).
    reflexivity.
  - replace (length acc + 1 =? d) with false
      by (symmetry; apply Nat.eqb_neq; cbn [length] in Hlen; lia).
    rewrite IH; [|discriminate|rewrite length_app; cbn [length] in *; lia].
    by rewrite <- app_assoc.
Qed.

Lemma image_size_pos : 0 < image_size.
Proof. apply Nat.ltb_lt. vm_compute. reflexivity. Qed.

(** viewing a [B, 784] tensor as images regroups exactly its rows *)
Lemma view_images_rows B (x : Matrix) w :
  is_batch B image_size x -> view_images x w = Ok x w.
Proof.
  intros Hx. unfold view_images. rewrite (numel_is_batch _ _ _ Hx).
  rewrite Nat.Div0.mod_mul. cbn [Nat.eqb]. unfold ret. f_equal.
  destruct Hx as [_ Hrows]. unfold BatchSampler.
  induction Hrows as [|r x Hr _ IH]; [reflexivity|].
  cbn [concat]. rewrite batch_sampler_go_fill.
  - cbn [app]. by rewrite IH.
  - intros ->. pose proof image_size_pos. cbn [length] in Hr. lia.
  - cbn [length]. exact Hr.
Qed.

(** ** The whole run *)

Lemma running_sums_app ds xs : forall k acc ys,
  running_sums ds k acc (xs ++ ys)
  = running_sums ds k acc xs
    ++ running_sums ds (k + length xs) (running_acc ds k acc xs) ys.
Proof.
  induction xs as [|x xs IH]; intros k acc ys; cbn [app running_sums running_acc length].
  - by rewrite Nat.add_0_r.
  - rewrite IH. replace (S k + length xs) with (k + S (length xs)) by lia. reflexivity.
Qed.

Lemma running_acc_app ds xs : forall k acc ys,
  running_acc ds k acc (xs ++ ys)
  = running_acc ds (k + length xs) (running_acc ds k acc xs) ys.
Proof.
  induction xs as [|x xs IH]; intros k acc ys; cbn [app running_acc length].
  - by rewrite Nat.add_0_r.
  - rewrite IH. replace (S k + length xs) with (k + S (length xs)) by lia. reflexivity.
Qed.

Lemma length_running_sums ds xs : forall k acc, length (running_sums ds k acc xs) = length xs.
Proof. induction xs as [|x xs IH]; intros k acc; cbn [running_sums length]; [done|]. by rewrite IH. Qed.

(** Entry [j] of the running sums is the left-to-right sum of the
    amounts added since the latest display, or since the start (on top of
    the initial accumulator) when there has been none. *)
Lemma running_sums_nth ds xs :
  ds <> 0 ->
  forall k0 acc j,
    j < length xs ->
    nth j (running_sums ds k0 acc xs) 0%R
    = fold_left Rplus
        (firstn (S j - (window_start ds (k0 + j) - k0))
                (skipn (window_start ds (k0 + j) - k0) xs))
        (if window_start ds (k0 + j) - k0 =? 0 then acc else 0%R).
Proof.
  intros Hds. induction xs as [|x xs IH]; intros k0 acc j Hj; [cbn in Hj; lia|].
  destruct j as [|j].
  - assert (E : window_start ds (k0 + 0) - k0 = 0).
    { rewrite Nat.add_0_r. unfold window_start. destruct k0 as [|k']; [reflexivity|].
      pose proof (Nat.Div0.mul_div_le k' ds). lia. }
    rewrite E. cbn [running_sums nth Nat.eqb Nat.sub skipn firstn fold_left]. reflexivity.
  - cbn [length] in Hj. cbn [running_sums nth].
    rewrite IH by lia.
    replace (S k0 + j) with (S (k0 + j)) by lia.
    replace (k0 + S j) with (S (k0 + j)) by lia.
    cbn [window_start].
    set (W := (k0 + j) / ds * ds + 1).
    destruct (Nat.le_gt_cases W k0) as [Hle|Hgt].
    + (* no display since step k0 *)
      replace (W - S k0) with 0 by lia. replace (W - k0) with 0 by lia.
      cbn [Nat.eqb skipn]. rewrite !Nat.sub_0_r. cbn [firstn fold_left].
      destruct (Nat.eqb_spec (k0 mod ds) 0) as [Hz|_]; [|reflexivity].
      exfalso. pose proof (Nat.div_mod_eq k0 ds) as Hk. rewrite Hz in Hk.
      pose proof (Nat.Div0.div_le_mono k0 (k0 + j) ds ltac:(lia)) as Hq.
      unfold W in Hle. nia.
    + destruct (Nat.eq_dec W (S k0)) as [HW|HW].
      * (* the display was made at step k0 itself *)
        rewrite HW. replace (S k0 - S k0) with 0 by lia.
        replace (S k0 - k0) with 1 by lia.
        cbn [Nat.eqb skipn]. rewrite Nat.sub_0_r.
        replace (S (S j) - 1) with (S j) by lia.
        assert (Hz : k0 mod ds = 0).
        { assert (Hk : k0 = (k0 + j) / ds * ds) by (unfold W in HW; lia).
          rewrite Hk at 1. apply Nat.Div0.mod_mul. }
        rewrite Hz. cbn [Nat.eqb]. reflexivity.
      * (* a display was made after step k0 *)
        destruct (W - S k0) as [|s'] eqn:Es; [lia|].
        replace (W - k0) with (S (S s')) by lia.
        cbn [Nat.eqb skipn]. replace (S (S j) - S (S s')) with (S j - S s') by lia.
        reflexivity.
Qed.

(** With an accumulator that starts at zero, the value stored by step
    [k] is the sum over the window that ends at [k]. *)
Lemma running_sums_window ds xs k :
  ds <> 0 -> k < length xs ->
  nth k (running_sums ds 0 0 xs) 0%R = window_sum xs (window_start ds k) k.
Proof.
  intros Hds Hk. rewrite (running_sums_nth ds xs Hds 0 0%R k Hk).
  cbn [Nat.add]. rewrite Nat.sub_0_r. unfold window_sum.
  by destruct (window_start ds k =? 0).
Qed.

Section Run.

Hypothesis images_fit :
  Forall (fun ex => length (concat (concat (fst ex))) = image_size) data_train.
Hypothesis order_is_permutation :
  forall e, Permutation (epoch_order e) (seq 0 (length data_train)).
Hypothesis batch_size_ge_2 : 2 <= batch_size.
Hypothesis no_single_leftover : length data_train mod batch_size <> 1.
Hypothesis display_step_nonzero : display_step <> 0.

Lemma train_loader_lengths e :
  map (fun b => length (fst b)) (train_loader e)
  = replicate (length data_train / batch_size) batch_size
    ++ (if length data_train mod batch_size =? 0 then []
        else [length data_train mod batch_size]).
Proof using All.
  unfold train_loader. rewrite map_map. cbn [fst].
  pose proof (BatchSampler_lengths (epoch_order e) batch_size ltac:(lia)) as H.
  rewrite (Permutation_length (order_is_permutation e)), length_seq in H.
  rewrite <- H. apply map_ext. intros idxs. by rewrite !length_map.
Qed.

Lemma train_loader_good e : Forall good_batch (train_loader e).
Proof using All.
  apply Forall_forall. intros b Hb. apply list_elem_of_In in Hb.
  pose proof (train_loader_lengths e) as Hlen.
  assert (Hin : In (length (fst b)) (map (fun b => length (fst b)) (train_loader e))).
  { apply in_map_iff. exists b. by split. }
  rewrite Hlen in Hin. split.
  - apply in_app_iff in Hin as [Hin|Hin].
    + apply list_elem_of_In, elem_of_replicate in Hin as [-> _]. lia.
    + destruct (Nat.eqb_spec (length data_train mod batch_size) 0); [contradiction|].
      destruct Hin as [<-|[]]. lia.
  - unfold train_loader in Hb. apply in_map_iff in Hb as (idxs & <- & Hidxs).
    cbn [fst]. apply Forall_forall. intros img Himg.
    apply list_elem_of_In in Himg. rewrite map_map in Himg.
    apply in_map_iff in Himg as (i & <- & Hi).
    unfold BatchSampler in Hidxs.
    pose proof (batch_sampler_go_elements _ _ _ _ _ _ Hidxs Hi) as Hs. cbn [app] in Hs.
    apply (Permutation_in _ (order_is_permutation e)), in_seq in Hs.
    rewrite Forall_forall in images_fit. apply images_fit.
    apply list_elem_of_In, nth_In. lia.
Qed.

Lemma train_loader_nonempty e : data_train <> [] -> train_loader e <> [].
Proof using All.
  intros Hne E. pose proof (train_loader_lengths e) as Hlen. rewrite E in Hlen.
  cbn [map] in Hlen. symmetry in Hlen. apply app_eq_nil in Hlen as [H1 H2].
  assert (0 < length data_train) by (destruct data_train; [contradiction|cbn [length]; lia]).
  pose proof (Nat.div_mod_eq (length data_train) batch_size) as Hdm.
  destruct (length data_train / batch_size) as [|q] eqn:Eq; [|discriminate H1].
  destruct (Nat.eqb_spec (length data_train mod batch_size) 0); [lia|discriminate H2].
Qed.

(** the inner loop works through any list of good batches *)
Lemma foldM_train_batch_run epoch batches :
  Forall good_batch batches ->
  forall st w, exists hist st' w',
    foldM (train_batch epoch) st batches w = Ok st' w'
    /\ run_batches epoch st w batches hist st' w'
    /\ length hist = length batches.
Proof using All.
  induction 1 as [|b bs Hb _ IH]; intros st w.
  - exists [], st, w. split; [reflexivity|]. split; [constructor|reflexivity].
  - destruct (train_batch_spec epoch st b w Hb display_step_nonzero)
      as (flat & dl & dopt & w1 & gl & gopt & w2 & st1 & w3 & H1 & _ & H2 & H3 & H4 & H5).
    destruct (IH st1 w3) as (hist & st' & w' & F & R & L).
    eexists (_ :: hist), st', w'. cbn [foldM]. rewrite (bind_ok _ _ _ _ _ H5).
    split; [exact F|]. split; [|cbn [length]; by rewrite L].
    eapply run_batches_cons; eassumption.
Qed.

(** what the inner loop does to the loss lists, the accumulators and the
    step counter *)
Lemma run_batches_losses epoch st w batches hist st' w' :
  run_batches epoch st w batches hist st' w' ->
  Forall good_batch batches ->
  G_losses st'
  = G_losses st
    ++ running_sums display_step (cur_step st) (mean_discriminator_loss st) (map fst hist)
  /\ D_losses st'
     = D_losses st
       ++ running_sums display_step (cur_step st) (mean_generator_loss st) (map snd hist)
  /\ mean_discriminator_loss st'
     = running_acc display_step (cur_step st) (mean_discriminator_loss st) (map fst hist)
  /\ mean_generator_loss st'
     = running_acc display_step (cur_step st) (mean_generator_loss st) (map snd hist)
  /\ cur_step st' = cur_step st + length hist
  /\ length hist = length batches
  /\ (batches <> [] \/ display_ready st -> display_ready st').
Proof using All.
  induction 1 as [st w|st w b bs flat dl dopt w1 gl gopt w2 st1 w3 hist st' w'
                        Hv Hd Hg Hr Hrun IH]; intros Hgood.
  - cbn [map running_sums running_acc length]. rewrite !app_nil_r, Nat.add_0_r.
    do 6 (split; [reflexivity|]). intros [H|H]; [contradiction|exact H].
  - inversion Hgood as [|? ? Hb Hbs]; subst.
    destruct (IH Hbs) as (I1 & I2 & I3 & I4 & I5 & I6 & I7).
    pose proof Hb as [Hlen Himg].
    assert (HB : length (fst b) <> 1) by lia.
    destruct (record_losses_spec epoch st dopt gopt (constant flat) _ dl gl w2 HB
                display_step_nonzero)
      as (st2 & w2' & Hr' & R1 & R2 & R3 & _ & _ & R6 & R7 & R).
    rewrite Hr in Hr'. injection Hr' as <- <-.
    assert (Hacc : mean_discriminator_loss st1
                   = (if cur_step st mod display_step =? 0 then 0%R
                      else (mean_discriminator_loss st + item dl / INR (length (fst b)))%R)
                   /\ mean_generator_loss st1
                      = (if cur_step st mod display_step =? 0 then 0%R
                         else (mean_generator_loss st + item gl / INR (length (fst b)))%R)).
    { destruct (cur_step st mod display_step =? 0).
      - destruct R as (-> & -> & _). split; reflexivity.
      - destruct R as (-> & -> & _). split; reflexivity. }
    destruct Hacc as [A1 A2].
    cbn [map fst snd running_sums running_acc length].
    rewrite I1, I2, I3, I4, I5, I6, R1, R2, R3, A1, A2.
    rewrite <- !app_assoc. cbn [app].
    replace (cur_step st + 1) with (S (cur_step st)) by lia.
    do 4 (split; [reflexivity|]). split; [lia|]. split; [reflexivity|].
    intros _. apply I7. right.
    destruct (view_flat_ok (fst b) w) as (flat' & Hflat' & Hfb); [|exact Himg|].
    { intros E. rewrite E in Hlen. cbn in Hlen. lia. }
    rewrite Hv in Hflat'. injection Hflat' as <-.
    exists (length (fst b)), (constant flat). auto.
Qed.

Lemma show_tensor_images_ok b b' (r fake : Var) w :
  is_batch b image_size (value r) ->
  is_batch b' image_size (value fake) ->
  exists shown, show_tensor_images r fake w = Ok shown w.
Proof.
  intros Hr Hf. unfold show_tensor_images.
  destruct (view_images_ok b (value (detach r)) w Hr) as (ir & Hir).
  destruct (view_images_ok b' (value (detach fake)) w Hf) as (ifk & Hifk).
  rewrite (bind_ok _ _ _ _ _ Hir). cbv zeta.
  rewrite (bind_ok _ _ _ _ _ Hifk). unfold ret. eauto.
Qed.

Lemma end_of_epoch_ok epoch st w :
  display_ready st ->
  exists st' w',
    end_of_epoch epoch st w = Ok st' w'
    /\ G_losses st' = G_losses st /\ D_losses st' = D_losses st
    /\ mean_discriminator_loss st' = mean_discriminator_loss st
    /\ mean_generator_loss st' = mean_generator_loss st
    /\ cur_step st' = cur_step st
    /\ display_ready st'.
Proof using built.
  intros Hready. unfold end_of_epoch.
  destruct (epoch mod img_show =? 0).
  - pose proof Hready as (b & r & Hb & Hb1 & Hr & Hrb). rewrite Hb, Hr.
    destruct (generate_ok b w Hb1) as (noise & w1 & fake & w2 & Hn & Hf & Hfb).
    rewrite (bind_ok _ _ _ _ _ Hn), (bind_ok _ _ _ _ _ Hf).
    destruct (show_tensor_images_ok b b r fake w2 Hrb Hfb) as (shown & Hshown).
    rewrite (bind_ok _ _ _ _ _ Hshown).
    eexists _, _. split; [reflexivity|]. cbn.
    do 5 (split; [reflexivity|]).
    exists b, r. cbn [cur_batch_size real]. auto.
  - exists st, w. unfold ret. auto 10.
Qed.

(** the outer loop works through any list of epochs *)
Lemma foldM_train_epoch_run epochs :
  data_train <> [] ->
  forall st w, exists hist st' w',
    foldM train_epoch st epochs w = Ok st' w'
    /\ run_epochs st w epochs hist st' w'
    /\ length hist = length epochs * loader_len (length data_train) batch_size
    /\ G_losses st'
       = G_losses st
         ++ running_sums display_step (cur_step st) (mean_discriminator_loss st) (map fst hist)
    /\ D_losses st'
       = D_losses st
         ++ running_sums display_step (cur_step st) (mean_generator_loss st) (map snd hist)
    /\ mean_discriminator_loss st'
       = running_acc display_step (cur_step st) (mean_discriminator_loss st) (map fst hist)
    /\ mean_generator_loss st'
       = running_acc display_step (cur_step st) (mean_generator_loss st) (map snd hist)
    /\ cur_step st' = cur_step st + length hist.
Proof using All.
  intros Hne. induction epochs as [|e es IH]; intros st w.
  - exists [], st, w. split; [reflexivity|]. split; [constructor|].
    cbn [map running_sums running_acc length]. rewrite !app_nil_r, Nat.add_0_r. auto 10.
  - destruct (foldM_train_batch_run e (train_loader e) (train_loader_good e) st w)
      as (hist1 & st1 & w1 & F1 & R1 & L1).
    destruct (run_batches_losses e st w _ hist1 st1 w1 R1 (train_loader_good e))
      as (A1 & A2 & A3 & A4 & A5 & _ & A7).
    destruct (end_of_epoch_ok e st1 w1 (A7 (or_introl (train_loader_nonempty e Hne))))
      as (st2 & w2 & E & E1 & E2 & E3 & E4 & E5 & _).
    destruct (IH st2 w2) as (hist2 & st' & w' & F2 & R2 & L2 & B1 & B2 & B3 & B4 & B5).
    exists (hist1 ++ hist2), st', w'.
    split.
    { assert (T : train_epoch st e w = Ok st2 w2).
      { unfold train_epoch. rewrite (bind_ok _ _ _ _ _ F1). exact E. }
      cbn [foldM]. rewrite (bind_ok _ _ _ _ _ T). exact F2. }
    split; [eapply run_epochs_cons; eassumption|].
    split.
    { rewrite length_app, L1, L2. cbn [length].
      pose proof (train_loader_lengths e) as Hl.
      apply (f_equal (@length nat)) in Hl. rewrite length_map in Hl. rewrite Hl.
      rewrite length_app, length_replicate, loader_len_spec by lia.
      destruct (length data_train mod batch_size =? 0); cbn [length]; lia. }
    rewrite B1, B2, B3, B4, B5, E1, E2, E3, E4, E5, A1, A2, A3, A4, A5.
    rewrite !map_app, !running_sums_app, !running_acc_app, !length_map, length_app.
    rewrite <- !app_assoc.
    split; [reflexivity|]. split; [reflexivity|]. split; [reflexivity|].
    split; [reflexivity|]. lia.
Qed.

(** C10: the training cell runs to its end; [G_losses] and [D_losses]
    receive one entry per step, so each is as long as the number of steps
    taken, [num_epochs * len(train_loader)]; the entry of step [k] is the
    running accumulator, that is the sum of the per-batch losses (each
    over its batch size) from the step after the latest display up to
    [k]: the accumulators restart from zero after every step whose number
    is a multiple of [display_step]. *)
Theorem training_loss_lists_are_running_sums w :
  data_train <> [] ->
  exists hist final w',
    training w = Ok final w'
    /\ run_epochs initial_loop w (seq 0 num_epochs) hist final w'
    /\ length hist = num_epochs * loader_len (length data_train) batch_size
    /\ cur_step final = length hist
    /\ length (G_losses final) = length hist
    /\ length (D_losses final) = length hist
    /\ G_losses final = running_sums display_step 0 0 (map fst hist)
    /\ D_losses final = running_sums display_step 0 0 (map snd hist)
    /\ (forall k, k < length hist ->
          nth k (G_losses final) 0%R
          = window_sum (map fst hist) (window_start display_step k) k
          /\ nth k (D_losses final) 0%R
             = window_sum (map snd hist) (window_start display_step k) k).
Proof using All.
  intros Hne.
  destruct (foldM_train_epoch_run (seq 0 num_epochs) Hne initial_loop w)
    as (hist & final & w' & F & R & L & G & D & _ & _ & C).
  cbn [initial_loop G_losses D_losses cur_step mean_discriminator_loss
       mean_generator_loss app] in G, D, C.
  exists hist, final, w'.
  split; [exact F|]. split; [exact R|].
  split; [by rewrite L, length_seq|]. split; [exact C|].
  split; [by rewrite G, length_running_sums, length_map|].
  split; [by rewrite D, length_running_sums, length_map|].
  split; [exact G|]. split; [exact D|].
  intros k Hk. rewrite G, D.
  split; apply running_sums_window; rewrite ?length_map; assumption.
Qed.

End Run.

(** ** One epoch of Fashion-MNIST *)

Lemma div_60000_128 : 60000 / 128 = 468.
Proof. vm_compute. reflexivity. Qed.

Lemma mod_60000_128 : 60000 mod 128 = 96.
Proof. vm_compute. reflexivity. Qed.

(** C7, amended: one pass over 60,000 examples with batch size 128 (the
    loader keeps the last partial batch) yields 468 full batches followed
    by one batch of 96 examples, 469 batches in all, and the loop performs
    one discriminator update followed by one generator update on each of
    them without raising. *)
Theorem epoch_over_60000_examples_in_batches_of_128 epoch st w :
  batch_size = 128 ->
  length data_train = 60000 ->
  Forall (fun ex => length (concat (concat (fst ex))) = image_size) data_train ->
  (forall e, Permutation (epoch_order e) (seq 0 (length data_train))) ->
  display_step <> 0 ->
  map (fun b => length (fst b)) (train_loader epoch) = replicate 468 128 ++ [96]
  /\ length (train_loader epoch) = 469
  /\ loader_len (length data_train) batch_size = 469
  /\ exists hist st1 w1 st' w',
       foldM (train_batch epoch) st (train_loader epoch) w = Ok st1 w1
       /\ run_batches epoch st w (train_loader epoch) hist st1 w1
       /\ length hist = 469
       /\ cur_step st1 = cur_step st + 469
       /\ train_epoch st epoch w = Ok st' w'.
Proof using All.
  intros Hbs Hn Himg Hperm Hds.
  assert (H2 : 2 <= batch_size) by lia.
  assert (Hrem : length data_train mod batch_size <> 1).
  { rewrite Hbs, Hn, mod_60000_128. lia. }
  pose proof (train_loader_lengths Himg Hperm H2 Hrem Hds epoch) as HL.
  rewrite Hbs, Hn, div_60000_128, mod_60000_128 in HL. cbn [Nat.eqb] in HL.
  assert (Hlen : length (train_loader epoch) = 469).
  { apply (f_equal (@length nat)) in HL.
    rewrite length_map, length_app, length_replicate in HL. exact HL. }
  split; [exact HL|]. split; [exact Hlen|].
  split.
  { rewrite loader_len_spec by lia. rewrite Hbs, Hn, div_60000_128, mod_60000_128.
    reflexivity. }
  pose proof (train_loader_good Himg Hperm H2 Hrem Hds epoch) as Hgood.
  destruct (foldM_train_batch_run Himg Hperm H2 Hrem Hds epoch _ Hgood st w)
    as (hist & st1 & w1 & F & R & L).
  destruct (run_batches_losses Himg Hperm H2 Hrem Hds epoch st w _ hist st1 w1 R Hgood)
    as (_ & _ & _ & _ & C & _ & Rdy).
  destruct (end_of_epoch_ok epoch st1 w1) as (st' & w' & E & _).
  { apply Rdy. left. intros Enil. rewrite Enil in Hlen. discriminate Hlen. }
  exists hist, st1, w1, st', w'.
  split; [exact F|]. split; [exact R|]. split; [by rewrite L|].
  split; [by rewrite C, L, Hlen|].
  unfold train_epoch. rewrite (bind_ok _ _ _ _ _ F). exact E.
Qed.

(** ** Further properties of one training step *)






(** X11: at a display step the snapshot stored in [img_list] is the grid of
    the first 36 rows the generator returns for fresh noise of the
    current batch size *)
Theorem snapshot_is_grid_of_first_36_generated_images epoch st batch w :
  good_batch batch ->
  display_step <> 0 ->
  cur_step st mod display_step = 0 ->
  exists flat disc_loss disc_opt w1 gen_loss gen_opt w2 fake_noise w3 fake st' w',
    view_flat (fst batch) w = Ok flat w
    /\ discriminator_update (disc_optimizer st) (constant flat) (length (fst batch)) w
       = Ok (disc_loss, disc_opt) w1
    /\ generator_update (gen_optimizer st) (length (fst batch)) w1 = Ok (gen_loss, gen_opt) w2
    /\ get_generator_noise (length (fst batch)) z_dim w2 = Ok fake_noise w3
    /\ Generator_forward generator fake_noise w3 = Ok fake w'
    /\ is_batch (length (fst batch)) image_size (value fake)
    /\ train_batch epoch st batch w = Ok st' w'
    /\ img_list st' = img_list st ++ [make_grid (take 36 (value fake)) 6].
Proof using built.
  intros Hgood Hds Hmod. pose proof Hgood as [Hlen Himg].
  assert (HB : length (fst batch) <> 1) by lia.
  destruct (train_batch_spec epoch st batch w Hgood Hds)
    as (flat & dl & dopt & w1 & gl & gopt & w2 & st' & w' & Hflat & Hfb & Hd & Hg & Hr & Ht).
  destruct (generate_ok _ w2 HB) as (noise & w3 & fake & w4 & Hn & Hf & Hfk).
  exists flat, dl, dopt, w1, gl, gopt, w2, noise, w3, fake, st', w4.
  unfold record_losses in Hr.
  destruct (Nat.eqb_spec display_step 0) as [E|_]; [contradiction|].
  rewrite Hmod in Hr. cbn [Nat.eqb] in Hr.
  rewrite (bind_ok _ _ _ _ _ Hn), (bind_ok _ _ _ _ _ Hf) in Hr.
  rewrite (bind_ok _ _ _ _ _ (view_images_rows _ _ w4 Hfk)) in Hr.
  unfold ret in Hr. injection Hr as <- <-.
  do 6 (split; [assumption|]). split; [exact Ht|]. reflexivity.
Qed.

(** X12: when the generator loss is computed, every discriminator parameter
    already holds the value this iteration's Adam step gave it *)
Theorem generator_loss_sees_updated_discriminator epoch st batch w :
  good_batch batch ->
  display_step <> 0 ->
  params (disc_optimizer st) = parameters (disc discriminator) ->
  exists flat disc_loss disc_opt w1 wz' gen_loss wl' st' w',
    view_flat (fst batch) w = Ok flat w
    /\ discriminator_update (disc_optimizer st) (constant flat) (length (fst batch)) w
       = Ok (disc_loss, disc_opt) w1
    /\ zero_grad (gen_optimizer st) w1 = Ok tt wz'
    /\ get_generator_loss generator discriminator criterion (length (fst batch)) z_dim wz'
       = Ok gen_loss wl'
    /\ train_batch epoch st batch w = Ok st' w'
    /\ D_losses st'
       = D_losses st
         ++ [(mean_generator_loss st + item gen_loss / INR (length (fst batch)))%R]
    /\ forall p c, p ∈ parameters (disc discriminator) -> heap w !! p = Some c ->
         exists g,
           state disc_opt !! p
           = Some (adam_moments (adam_state_of (disc_optimizer st) p c) g)
           /\ data <$> heap wz' !! p
              = Some (adam_update (learning_rate (disc_optimizer st))
                        (adam_moments (adam_state_of (disc_optimizer st) p c) g)
                        (data c)).
Proof using built.
  intros Hgood Hds Hopt. pose proof Hgood as [Hlen Himg].
  assert (HB : length (fst batch) <> 1) by lia.
  destruct (view_flat_ok (fst batch) w) as (flat & Hflat & Hfb); [|exact Himg|].
  { intros E. rewrite E in Hlen. cbn in Hlen. lia. }
  destruct (discriminator_update_spec (disc_optimizer st) flat _ w Hfb HB)
    as (wz & dl & wl & wg & dopt & w1 & _ & _ & _ & _ & Hd & _ & _ & _ & Ud).
  destruct (generator_update_spec (gen_optimizer st) _ w1 HB)
    as (wz' & gl & wl' & wg' & gopt & w2 & G1 & G2 & _ & _ & Hg & _ & _ & G3 & _).
  destruct (record_losses_spec epoch st dopt gopt (constant flat) _ dl gl w2 HB Hds)
    as (st' & w' & Hr & _ & R2 & _).
  exists flat, dl, dopt, w1, wz', gl, wl', st', w'.
  do 4 (split; [assumption|]).
  split.
  { unfold train_batch.
    rewrite (bind_ok _ _ _ _ _ Hflat), (bind_ok _ _ _ _ _ Hd), (bind_ok _ _ _ _ _ Hg).
    exact Hr. }
  split; [exact R2|].
  intros p c Hp Hc. destruct (Ud Hopt p c Hp Hc) as (g & U1 & U2).
  exists g. split; [exact U1|]. rewrite G3, U2. reflexivity.
Qed.

(** ** Further properties of the whole run *)

Lemma filter_seq_multiples_length ds : forall n,
  ds <> 0 ->
  length (List.filter (fun k => k mod ds =? 0) (seq 0 n)) = loader_len n ds.
Proof.
  intros n Hds. induction n as [|n IH].
  - cbn [seq List.filter length]. unfold loader_len.
    replace (0 + ds - 1) with (ds - 1) by lia. rewrite Nat.div_small by lia. reflexivity.
  - rewrite seq_S, List.filter_app, length_app, IH. cbn [Nat.add List.filter].
    rewrite !loader_len_spec by lia.
    pose proof (Nat.div_mod_eq n ds) as E1. pose proof (Nat.div_mod_eq (S n) ds) as E2.
    pose proof (Nat.mod_upper_bound n ds Hds) as M1.
    pose proof (Nat.mod_upper_bound (S n) ds Hds) as M2.
    destruct (Nat.eqb_spec (n mod ds) 0) as [Z1|Z1];
      destruct (Nat.eqb_spec (S n mod ds) 0) as [Z2|Z2]; cbn [length]; nia.
Qed.






(** ** What a whole run prints and shows *)

Lemma forward_heap l : forall x w y w', forward l x w = Ok y w' -> heap w' = heap w.
Proof.
  tidy.
  induction l as [W b i o|g b n|s|p| |ms IH] using Layer_nested_ind; intros x w y w'.
  - cbn [forward]. unfold Linear_forward.
    destruct (row_lengths_ok i (value x)); [|discriminate]. by intros [= _ <-].
  - cbn [forward]. unfold BatchNorm1d_forward.
    destruct (length (value x) =? 1); [discriminate|].
    destruct (row_lengths_ok n (value x)); [|discriminate]. by intros [= _ <-].
  - cbn [forward]. unfold LeakyReLU_forward, ret. by intros [= _ <-].
  - cbn [forward]. unfold Dropout_forward. by intros [= _ <-].
  - cbn [forward]. unfold Sigmoid_forward, ret. by intros [= _ <-].
  - rewrite forward_Sequential. revert x w.
    induction IH as [|m ms Hm _ IHms]; intros x w H; cbn [forward_all] in H.
    + unfold ret in H. by injection H as _ <-.
    + apply bind_inv in H as (y1 & w1 & H1 & H2).
      apply Hm in H1. apply IHms in H2. congruence.
Qed.

Lemma view_images_world x imgs w w' : view_images x w = Ok imgs w' -> w' = w.
Proof.
  tidy. unfold view_images. destruct (numel x mod image_size =? 0).
  - unfold ret. by intros [= _ <-].
  - unfold raise. discriminate.
Qed.

(** what the bookkeeping of one step leaves behind, whenever it returns *)
Lemma record_losses_inv epoch st disc_opt gen_opt r B disc_loss gen_loss w st' w' :
  record_losses epoch st disc_opt gen_opt r B disc_loss gen_loss w = Ok st' w' ->
  figures st' = figures st
  /\ cur_step st' = S (cur_step st)
  /\ gen_optimizer st' = gen_opt /\ disc_optimizer st' = disc_opt
  /\ heap w' = heap w
  /\ exists new,
       stdout st' = stdout st ++ new
       /\ map report_step new
          = List.filter (fun k => k mod display_step =? 0) [cur_step st]
       /\ Forall (fun rep => report_epoch rep = epoch
                             /\ report_num_epochs rep = num_epochs
                             /\ report_total_steps rep
                                = num_epochs * loader_len (length data_train) batch_size) new
       /\ length (img_list st') = length (img_list st) + length new.
Proof.
  tidy. unfold record_losses.
  destruct (display_step =? 0); [unfold raise; discriminate|].
  cbn [List.filter].
  destruct (cur_step st mod display_step =? 0).
  - intros H.
    apply bind_inv in H as (noise & w1 & H1 & H).
    apply bind_inv in H as (fake & w2 & H2 & H).
    apply bind_inv in H as (images & w3 & H3 & H).
    unfold ret in H. injection H as <- <-.
    cbn [figures cur_step gen_optimizer disc_optimizer stdout img_list].
    split; [reflexivity|]. split; [lia|]. split; [reflexivity|]. split; [reflexivity|].
    split.
    { apply view_images_world in H3. subst w3.
      apply forward_heap in H2. rewrite H2.
      unfold get_generator_noise, randn in H1. by injection H1 as _ <-. }
    eexists [_]. split; [reflexivity|]. split; [reflexivity|].
    split; [constructor; [auto|constructor]|].
    rewrite length_app. reflexivity.
  - unfold ret. intros [= <- <-].
    cbn [figures cur_step gen_optimizer disc_optimizer stdout img_list].
    split; [reflexivity|]. split; [lia|]. split; [reflexivity|]. split; [reflexivity|].
    split; [reflexivity|].
    exists []. rewrite app_nil_r. split; [reflexivity|]. split; [reflexivity|].
    split; [constructor|]. cbn [length]. lia.
Qed.

Lemma filter_seq_cons (f : nat -> bool) a n :
  List.filter f (seq a (S n)) = List.filter f [a] ++ List.filter f (seq (S a) n).
Proof. cbn [seq]. exact (List.filter_app f [a] (seq (S a) n)). Qed.

(** the reports and snapshots of a stretch of the inner loop *)
Lemma run_batches_displays epoch st w batches hist st' w' :
  run_batches epoch st w batches hist st' w' ->
  figures st' = figures st
  /\ cur_step st' = cur_step st + length hist
  /\ length hist = length batches
  /\ exists new,
       stdout st' = stdout st ++ new
       /\ map report_step new
          = List.filter (fun k => k mod display_step =? 0)
                        (seq (cur_step st) (length hist))
       /\ Forall (fun rep => report_epoch rep = epoch
                             /\ report_num_epochs rep = num_epochs
                             /\ report_total_steps rep
                                = num_epochs * loader_len (length data_train) batch_size) new
       /\ length (img_list st') = length (img_list st) + length new.
Proof.
  tidy.
  induction 1 as [st w|st w b bs flat dl dopt w1 gl gopt w2 st1 w3 hist st' w'
                        Hv Hd Hg Hr Hrun IH].
  - cbn [length seq List.filter]. split; [reflexivity|]. split; [lia|].
    split; [reflexivity|].
    exists []. rewrite app_nil_r. split; [reflexivity|]. split; [reflexivity|].
    split; [constructor|]. cbn [length]. lia.
  - destruct (record_losses_inv _ _ _ _ _ _ _ _ _ _ _ Hr)
      as (R1 & R2 & _ & _ & _ & new1 & R3 & R4 & R5 & R6).
    destruct IH as (I1 & I2 & I3 & new2 & I4 & I5 & I6 & I7).
    cbn [length]. split; [rewrite I1; exact R1|]. split; [lia|]. split; [lia|].
    exists (new1 ++ new2).
    split; [rewrite I4, R3, <- app_assoc; reflexivity|].
    split; [rewrite map_app, filter_seq_cons, R4, I5, R2; reflexivity|].
    split; [apply Forall_app; split; assumption|].
    rewrite length_app. lia.
Qed.

Lemma end_of_epoch_inv epoch st w st' w' :
  end_of_epoch epoch st w = Ok st' w' ->
  stdout st' = stdout st /\ img_list st' = img_list st /\ cur_step st' = cur_step st
  /\ gen_optimizer st' = gen_optimizer st /\ disc_optimizer st' = disc_optimizer st
  /\ heap w' = heap w
  /\ length (figures st')
     = length (figures st) + length (List.filter (fun e => e mod 3 =? 0) [epoch]).
Proof.
  tidy. unfold end_of_epoch, img_show. cbn [List.filter].
  destruct (epoch mod 3 =? 0).
  - destruct (cur_batch_size st) as [b|]; [|unfold raise; discriminate].
    destruct (real st) as [r|]; [|unfold raise; discriminate].
    intros H.
    apply bind_inv in H as (noise & w1 & H1 & H).
    apply bind_inv in H as (fake & w2 & H2 & H).
    apply bind_inv in H as (shown & w3 & H3 & H).
    unfold ret in H. injection H as <- <-.
    cbn [figures cur_step gen_optimizer disc_optimizer stdout img_list].
    do 5 (split; [reflexivity|]).
    split; [|rewrite length_app; reflexivity].
    unfold show_tensor_images in H3.
    apply bind_inv in H3 as (ir & w4 & V1 & H3). cbv zeta in H3.
    apply bind_inv in H3 as (ifk & w5 & V2 & H3).
    unfold ret in H3. injection H3 as _ <-.
    apply view_images_world in V1, V2. subst w4 w5.
    apply forward_heap in H2. rewrite H2.
    unfold get_generator_noise, randn in H1. by injection H1 as _ <-.
  - unfold ret. intros [= <- <-]. cbn [length]. do 6 (split; [reflexivity|]). lia.
Qed.

(** the reports, snapshots and figures of a stretch of epochs that starts
    at epoch [a], every epoch taking [L] steps *)
Lemma run_epochs_displays L : forall n a st w hist st' w',
  run_epochs st w (seq a n) hist st' w' ->
  (forall e, length (train_loader e) = L) ->
  L <> 0 ->
  cur_step st = a * L ->
  length hist = n * L
  /\ length (figures st')
     = length (figures st) + length (List.filter (fun e => e mod 3 =? 0) (seq a n))
  /\ exists new,
       stdout st' = stdout st ++ new
       /\ map report_step new
          = List.filter (fun k => k mod display_step =? 0)
                        (seq (cur_step st) (length hist))
       /\ Forall (fun rep => report_epoch rep = report_step rep / L
                             /\ report_num_epochs rep = num_epochs
                             /\ report_total_steps rep
                                = num_epochs * loader_len (length data_train) batch_size) new
       /\ length (img_list st') = length (img_list st) + length new.
Proof.
  tidy.
  induction n as [|n IH]; intros a st w hist st' w' Hrun HL HL0 Hcur.
  - cbn [seq] in Hrun. inversion Hrun; subst.
    cbn [length seq List.filter]. split; [reflexivity|]. split; [lia|].
    exists []. rewrite app_nil_r. split; [reflexivity|]. split; [reflexivity|].
    split; [constructor|]. cbn [length]. lia.
  - cbn [seq] in Hrun.
    inversion Hrun as [|? ? ? ? hist1 st1 w1 st2 w2 hist2 ? ? Hb He Hrest]; subst.
    destruct (run_batches_displays _ _ _ _ _ _ _ Hb)
      as (B1 & B2 & B3 & new1 & B4 & B5 & B6 & B7).
    destruct (end_of_epoch_inv _ _ _ _ _ He) as (E1 & E2 & E3 & _ & _ & _ & E4).
    rewrite HL in B3.
    destruct (IH (S a) st2 w2 hist2 st' w' Hrest HL HL0 ltac:(lia))
      as (I1 & I2 & new2 & I3 & I4 & I5 & I6).
    rewrite length_app. split; [lia|].
    split; [rewrite I2, E4, B1, filter_seq_cons; rewrite length_app; lia|].
    exists (new1 ++ new2).
    split; [rewrite I3, E1, B4, <- app_assoc; reflexivity|].
    split.
    { rewrite map_app, B5, I4, E3, B2, seq_app, List.filter_app. reflexivity. }
    split.
    { apply Forall_app. split; [|exact I5].
      assert (Hsteps : Forall (fun k => k / L = a) (map report_step new1)).
      { rewrite B5. apply Forall_forall. intros k Hk.
        apply list_elem_of_In, filter_In in Hk as [Hk _]. apply in_seq in Hk.
        symmetry. apply Nat.div_unique with (r := k - a * L); lia. }
      rewrite Forall_map in Hsteps.
      rewrite Forall_forall in B6, Hsteps. apply Forall_forall. intros rep Hrep.
      destruct (B6 rep Hrep) as (-> & -> & ->). cbv beta in Hsteps.
      rewrite (Hsteps rep Hrep). auto. }
    rewrite length_app, I6, E2, B7. lia.
Qed.

Section Displays.

Hypothesis images_fit :
  Forall (fun ex => length (concat (concat (fst ex))) = image_size) data_train.
Hypothesis order_is_permutation :
  forall e, Permutation (epoch_order e) (seq 0 (length data_train)).
Hypothesis batch_size_ge_2 : 2 <= batch_size.
Hypothesis no_single_leftover : length data_train mod batch_size <> 1.
Hypothesis display_step_nonzero : display_step <> 0.

(** X15: the run reports at the steps whose number is a multiple of
    [display_step], and at no other: the step numbers printed are, in
    order, the multiples of [display_step] below the number of steps, so
    there are as many lines as that number divided by [display_step],
    rounded up.  Each line shows the epoch its step belongs to, the
    number of epochs and the total number of steps.  [img_list], the
    frames of the animation, receives one grid per line. *)
Theorem training_reports_at_multiples_of_display_step w :
  data_train <> [] ->
  exists final w',
    training w = Ok final w'
    /\ map report_step (stdout final)
       = display_steps display_step
                       (num_epochs * loader_len (length data_train) batch_size)
    /\ length (stdout final)
       = loader_len (num_epochs * loader_len (length data_train) batch_size) display_step
    /\ Forall (fun rep =>
                 report_epoch rep
                 = report_step rep / loader_len (length data_train) batch_size
                 /\ report_num_epochs rep = num_epochs
                 /\ report_total_steps rep
                    = num_epochs * loader_len (length data_train) batch_size)
              (stdout final)
    /\ length (img_list final) = length (stdout final).
Proof using All.
  intros Hne.
  destruct (foldM_train_epoch_run images_fit order_is_permutation batch_size_ge_2
              no_single_leftover display_step_nonzero (seq 0 num_epochs) Hne initial_loop w)
    as (hist & final & w' & F & R & L & _).
  rewrite length_seq in L.
  assert (HL0 : loader_len (length data_train) batch_size <> 0).
  { rewrite <- (length_train_loader 0 ltac:(lia) (order_is_permutation 0)).
    intros E. apply length_zero_iff_nil in E.
    exact (train_loader_nonempty images_fit order_is_permutation batch_size_ge_2
             no_single_leftover display_step_nonzero 0 Hne E). }
  destruct (run_epochs_displays _ num_epochs 0 initial_loop w hist final w' R
              (fun e => length_train_loader e ltac:(lia) (order_is_permutation e))
              HL0 eq_refl)
    as (_ & _ & new & S1 & S2 & S3 & S4).
  cbn [initial_loop stdout img_list cur_step app length Nat.add] in S1, S2, S4.
  exists final, w'. split; [exact F|].
  rewrite S1. rewrite L in S2.
  split; [exact S2|].
  split.
  { rewrite <- (length_map report_step), S2.
    apply filter_seq_multiples_length, display_step_nonzero. }
  split; [exact S3|]. exact S4.
Qed.

(** X16: the side-by-side figure of real and generated images is drawn after
    the epochs whose number is a multiple of 3, so a run of [num_epochs]
    epochs draws [num_epochs / 3], rounded up, of them. *)
Theorem training_shows_figures_every_third_epoch w :
  data_train <> [] ->
  exists final w',
    training w = Ok final w'
    /\ length (figures final) = length (shown_epochs num_epochs)
    /\ length (figures final) = (num_epochs + 2) / 3.
Proof using All.
  intros Hne.
  destruct (foldM_train_epoch_run images_fit order_is_permutation batch_size_ge_2
              no_single_leftover display_step_nonzero (seq 0 num_epochs) Hne initial_loop w)
    as (hist & final & w' & F & R & L & _).
  assert (HL0 : loader_len (length data_train) batch_size <> 0).
  { rewrite <- (length_train_loader 0 ltac:(lia) (order_is_permutation 0)).
    intros E. apply length_zero_iff_nil in E.
    exact (train_loader_nonempty images_fit order_is_permutation batch_size_ge_2
             no_single_leftover display_step_nonzero 0 Hne E). }
  destruct (run_epochs_displays _ num_epochs 0 initial_loop w hist final w' R
              (fun e => length_train_loader e ltac:(lia) (order_is_permutation e))
              HL0 eq_refl)
    as (_ & S0 & _).
  cbn [initial_loop figures length Nat.add] in S0.
  exists final, w'. split; [exact F|]. split; [exact S0|].
  rewrite S0. rewrite (filter_seq_multiples_length 3 num_epochs ltac:(lia)).
  unfold loader_len. f_equal. lia.
Qed.

End Displays.

(** ** How often each optimizer steps *)

Lemma discriminator_update_counts opt (flat : Matrix) B w disc_loss opt' w' :
  is_batch B image_size flat ->
  B <> 1 ->
  params opt = parameters (disc discriminator) ->
  discriminator_update opt (constant flat) B w = Ok (disc_loss, opt') w' ->
  params opt' = params opt
  /\ (forall p, is_Some (heap w' !! p) <-> is_Some (heap w !! p))
  /\ (forall p, p ∈ parameters (disc discriminator) -> is_Some (heap w !! p) ->
        steps_taken opt' p = S (steps_taken opt p))
  /\ (forall p, p ∉ parameters (disc discriminator) -> state opt' !! p = state opt !! p).
Proof using built.
  intros Hflat HB Hopt H.
  destruct (discriminator_update_spec opt flat B w Hflat HB)
    as (wz & dl & wl & wg & o' & w'' & D1 & D2 & D3 & D4 & Hd & _).
  rewrite Hd in H. injection H as <- <- <-.
  destruct (get_discriminator_loss_spec z_dim image_size hidden_dim w0 generator discriminator
              wb (constant flat) B B wz built Hflat HB)
    as (noise & w1 & gen_output & wl' & fake & dreal & loss
        & _ & _ & _ & _ & _ & Hl & _ & Hleaves & Hng & Hhl & _).
  unfold criterion in D2. rewrite D2 in Hl. injection Hl as <- <-.
  destruct (update_counts opt w wz dl wl wg o' w'' D1 Hhl Hng D3 D4) as (U1 & U2 & U3 & U4).
  rewrite Hopt in U3, U4.
  split; [exact U1|]. split; [exact U2|]. split; [|exact U4].
  intros p Hp Hs. apply U3; [exact Hp| |exact Hs].
  rewrite Hleaves. apply elem_of_union_r, elem_of_list_to_set, Hp.
Qed.

Lemma generator_update_counts opt B w gen_loss opt' w' :
  B <> 1 ->
  params opt = parameters (gen generator) ->
  generator_update opt B w = Ok (gen_loss, opt') w' ->
  params opt' = params opt
  /\ (forall p, is_Some (heap w' !! p) <-> is_Some (heap w !! p))
  /\ (forall p, p ∈ parameters (gen generator) -> is_Some (heap w !! p) ->
        steps_taken opt' p = S (steps_taken opt p))
  /\ (forall p, p ∉ parameters (gen generator) -> state opt' !! p = state opt !! p).
Proof using built.
  intros HB Hopt H.
  destruct (generator_update_spec opt B w HB)
    as (wz & gl & wl & wg & o' & w'' & D1 & D2 & D3 & D4 & Hg & _).
  rewrite Hg in H. injection H as <- <- <-.
  destruct (get_generator_loss_spec z_dim image_size hidden_dim w0 generator discriminator wb
              B wz built HB)
    as (noise & w1 & gen_output & wl' & preds & loss
        & _ & _ & _ & _ & _ & _ & _ & Hl & _ & Hleaves & Hng & Hhl & _).
  unfold criterion in D2. rewrite D2 in Hl. injection Hl as <- <-.
  destruct (update_counts opt w wz gl wl wg o' w'' D1 Hhl Hng D3 D4) as (U1 & U2 & U3 & U4).
  rewrite Hopt in U3, U4.
  split; [exact U1|]. split; [exact U2|]. split; [|exact U4].
  intros p Hp Hs. apply U3; [exact Hp| |exact Hs].
  rewrite Hleaves. apply elem_of_union_l, elem_of_list_to_set, Hp.
Qed.

(** the optimizers over a stretch of the inner loop *)
Lemma run_batches_counts epoch st w batches hist st' w' :
  run_batches epoch st w batches hist st' w' ->
  Forall good_batch batches ->
  params (disc_optimizer st) = parameters (disc discriminator) ->
  params (gen_optimizer st) = parameters (gen generator) ->
  (forall p, p ∈ parameters (gen generator) \/ p ∈ parameters (disc discriminator) ->
     is_Some (heap w !! p)) ->
  params (disc_optimizer st') = parameters (disc discriminator)
  /\ params (gen_optimizer st') = parameters (gen generator)
  /\ (forall p, p ∈ parameters (gen generator) \/ p ∈ parameters (disc discriminator) ->
        is_Some (heap w' !! p))
  /\ (forall p, p ∈ parameters (disc discriminator) ->
        steps_taken (disc_optimizer st') p
        = steps_taken (disc_optimizer st) p + length hist)
  /\ (forall p, p ∈ parameters (gen generator) ->
        steps_taken (gen_optimizer st') p
        = steps_taken (gen_optimizer st) p + length hist)
  /\ (forall p, p ∉ parameters (disc discriminator) ->
        state (disc_optimizer st') !! p = state (disc_optimizer st) !! p)
  /\ (forall p, p ∉ parameters (gen generator) ->
        state (gen_optimizer st') !! p = state (gen_optimizer st) !! p).
Proof using built.
  induction 1 as [st w|st w b bs flat dl dopt w1 gl gopt w2 st1 w3 hist st' w'
                        Hv Hd Hg Hr Hrun IH]; intros Hgood Pd Pg Alive.
  - cbn [length]. split; [exact Pd|]. split; [exact Pg|]. split; [exact Alive|].
    split; [intros; lia|]. split; [intros; lia|]. split; reflexivity.
  - inversion Hgood as [|? ? Hb Hbs]; subst.
    pose proof Hb as [Hlen Himg].
    assert (HB : length (fst b) <> 1) by lia.
    destruct (view_flat_ok (fst b) w) as (flat' & Hflat' & Hfb); [|exact Himg|].
    { intros E. rewrite E in Hlen. cbn in Hlen. lia. }
    rewrite Hv in Hflat'. injection Hflat' as <-.
    destruct (discriminator_update_counts _ _ _ _ _ _ _ Hfb HB Pd Hd)
      as (D1 & D2 & D3 & D4).
    destruct (generator_update_counts _ _ _ _ _ _ HB Pg Hg) as (G1 & G2 & G3 & G4).
    destruct (record_losses_inv _ _ _ _ _ _ _ _ _ _ _ Hr)
      as (_ & _ & R1 & R2 & R3 & _).
    assert (Alive1 : forall p, p ∈ parameters (gen generator)
                               \/ p ∈ parameters (disc discriminator) ->
                               is_Some (heap w1 !! p)).
    { intros p Hp. apply D2, Alive, Hp. }
    destruct IH as (I1 & I2 & I3 & I4 & I5 & I6 & I7).
    { exact Hbs. }
    { rewrite R2, D1. exact Pd. }
    { rewrite R1, G1. exact Pg. }
    { intros p Hp. rewrite R3. apply G2, Alive1, Hp. }
    split; [exact I1|]. split; [exact I2|]. split; [exact I3|].
    cbn [length]. rewrite R1 in I5, I7. rewrite R2 in I4, I6.
    split; [|split; [|split]].
    + intros p Hp. rewrite (I4 p Hp), (D3 p Hp (Alive p (or_intror Hp))). lia.
    + intros p Hp. rewrite (I5 p Hp), (G3 p Hp (Alive1 p (or_introl Hp))). lia.
    + intros p Hp. rewrite (I6 p Hp). exact (D4 p Hp).
    + intros p Hp. rewrite (I7 p Hp). exact (G4 p Hp).
Qed.

(** the optimizers over a stretch of epochs *)
Lemma run_epochs_counts epochs : forall st w hist st' w',
  run_epochs st w epochs hist st' w' ->
  (forall e, Forall good_batch (train_loader e)) ->
  params (disc_optimizer st) = parameters (disc discriminator) ->
  params (gen_optimizer st) = parameters (gen generator) ->
  (forall p, p ∈ parameters (gen generator) \/ p ∈ parameters (disc discriminator) ->
     is_Some (heap w !! p)) ->
  (forall p, p ∈ parameters (disc discriminator) ->
     steps_taken (disc_optimizer st') p
     = steps_taken (disc_optimizer st) p + length hist)
  /\ (forall p, p ∈ parameters (gen generator) ->
        steps_taken (gen_optimizer st') p
        = steps_taken (gen_optimizer st) p + length hist)
  /\ (forall p, p ∉ parameters (disc discriminator) ->
        state (disc_optimizer st') !! p = state (disc_optimizer st) !! p)
  /\ (forall p, p ∉ parameters (gen generator) ->
        state (gen_optimizer st') !! p = state (gen_optimizer st) !! p).
Proof using built.
  induction epochs as [|e es IH]; intros st w hist st' w' Hrun Hgood Pd Pg Alive.
  - inversion Hrun; subst. cbn [length].
    split; [intros; lia|]. split; [intros; lia|]. split; reflexivity.
  - inversion Hrun as [|? ? ? ? hist1 st1 w1 st2 w2 hist2 ? ? Hb He Hrest]; subst.
    destruct (run_batches_counts _ _ _ _ _ _ _ Hb (Hgood e) Pd Pg Alive)
      as (B1 & B2 & B3 & B4 & B5 & B6 & B7).
    destruct (end_of_epoch_inv _ _ _ _ _ He) as (_ & _ & _ & E1 & E2 & E3 & _).
    destruct (IH st2 w2 hist2 st' w' Hrest Hgood) as (I1 & I2 & I3 & I4).
    { rewrite E2. exact B1. }
    { rewrite E1. exact B2. }
    { intros p Hp. rewrite E3. exact (B3 p Hp). }
    rewrite E1 in I2, I4. rewrite E2 in I1, I3. rewrite length_app.
    split; [|split; [|split]].
    + intros p Hp. rewrite (I1 p Hp), (B4 p Hp). lia.
    + intros p Hp. rewrite (I2 p Hp), (B5 p Hp). lia.
    + intros p Hp. rewrite (I3 p Hp). exact (B6 p Hp).
    + intros p Hp. rewrite (I4 p Hp). exact (B7 p Hp).
Qed.

Section Counts.

Hypothesis images_fit :
  Forall (fun ex => length (concat (concat (fst ex))) = image_size) data_train.
Hypothesis order_is_permutation :
  forall e, Permutation (epoch_order e) (seq 0 (length data_train)).
Hypothesis batch_size_ge_2 : 2 <= batch_size.
Hypothesis no_single_leftover : length data_train mod batch_size <> 1.
Hypothesis display_step_nonzero : display_step <> 0.

(** X17: over a whole run each optimizer updates each of its own parameters
    once per batch, and nothing else: when training ends, the Adam step
    count of every discriminator parameter in [disc_optimizer] and of
    every generator parameter in [gen_optimizer] is the number of
    batches seen, [num_epochs * len(train_loader)]; neither optimizer
    holds any state for a parameter of the other network. *)
Theorem training_steps_each_optimizer_once_per_batch w :
  data_train <> [] ->
  (forall p, p ∈ parameters (gen generator) \/ p ∈ parameters (disc discriminator) ->
     is_Some (heap w !! p)) ->
  exists final w',
    training w = Ok final w'
    /\ (forall p, p ∈ parameters (disc discriminator) ->
          steps_taken (disc_optimizer final) p
          = num_epochs * loader_len (length data_train) batch_size)
    /\ (forall p, p ∈ parameters (gen generator) ->
          steps_taken (gen_optimizer final) p
          = num_epochs * loader_len (length data_train) batch_size)
    /\ (forall p, p ∈ parameters (gen generator) ->
          state (disc_optimizer final) !! p = None)
    /\ (forall p, p ∈ parameters (disc discriminator) ->
          state (gen_optimizer final) !! p = None).
Proof using All.
  intros Hne Alive.
  destruct (foldM_train_epoch_run images_fit order_is_permutation batch_size_ge_2
              no_single_leftover display_step_nonzero (seq 0 num_epochs) Hne initial_loop w)
    as (hist & final & w' & F & R & L & _).
  rewrite length_seq in L.
  destruct (run_epochs_counts _ _ _ _ _ _ R
              (train_loader_good images_fit order_is_permutation batch_size_ge_2
                 no_single_leftover display_step_nonzero)
              eq_refl eq_refl Alive)
    as (C1 & C2 & C3 & C4).
  exists final, w'. split; [exact F|].
  split; [intros p Hp; rewrite (C1 p Hp), L; reflexivity|].
  split; [intros p Hp; rewrite (C2 p Hp), L; reflexivity|].
  split.
  - intros p Hp. rewrite C3; [reflexivity|].
    intros Hd. exact (build_networks_disjoint _ _ _ _ _ _ _ p built Hp Hd).
  - intros p Hp. rewrite C4; [reflexivity|].
    intros Hg. exact (build_networks_disjoint _ _ _ _ _ _ _ p built Hg Hp).
Qed.

End Counts.

End Step.

End Notebook.

(** * The theorems at concrete inputs *)



(** The smallest networks of the notebook's shape: latent dimension 1,
    hidden width 1, images of 28 x 28 pixels. *)
Lemma smallest_networks :
  { p : Generator * Discriminator * World
  | build_networks zero_stream 1 image_size 1 empty_world = Ok (fst p) (snd p) }.
Proof. eexists (_, _, _). vm_compute. reflexivity. Defined.

Lemma good_batch_two_images : good_batch two_images.
Proof. split; [cbn; lia|]. repeat constructor; vm_compute; reflexivity. Qed.

Lemma get_discriminator_loss_average_and_detached_witness :
  exists g d wb noise w1 gen_output w2 logit_fake logit_real loss,
    build_networks zero_stream 1 image_size 1 empty_world = Ok (g, d) wb
    /\ get_generator_noise zero_stream 2 1 wb = Ok noise w1
    /\ Generator_forward keep_all g noise w1 = Ok gen_output w2
    /\ Discriminator_forward keep_all d (detach gen_output) w2 = Ok logit_fake w2
    /\ Discriminator_forward keep_all d (constant (repeat (repeat 0%R image_size) 2)) w2
       = Ok logit_real w2
    /\ get_discriminator_loss zero_stream keep_all g d BCEWithLogitsLoss
         (constant (repeat (repeat 0%R image_size) 2)) 2 1 wb = Ok loss w2
    /\ item loss
       = ((F_bce_with_logits (value logit_fake) (zeros_like_m (value logit_fake))
           + F_bce_with_logits (value logit_real) (ones_like_m (value logit_real)))
          / 2)%R
    /\ (forall p, p ∈ parameters (gen g) -> p ∉ leaves (scalar_grad_fn loss)).
Proof.
  destruct smallest_networks as [[[g d] wb] Hb]. cbn [fst snd] in Hb.
  destruct (get_discriminator_loss_average_and_detached zero_stream keep_all zero_stream zero_vjp
              1 image_size 1 empty_world g d wb (repeat (repeat 0%R image_size) 2) 2 2 wb Hb)
    as (noise & w1 & gen_output & w2 & fake & dreal & loss
        & H1 & H2 & H3 & _ & H4 & H5 & H6 & H7 & _).
  - split; [reflexivity|]. repeat constructor; apply repeat_length.
  - lia.
  - exists g, d, wb, noise, w1, gen_output, w2, fake, dreal, loss. auto 10.
Defined.

Lemma get_generator_loss_fresh_noise_target_real_witness :
  exists g d wb noise w1 gen_output w2 disc_preds loss,
    build_networks zero_stream 1 image_size 1 empty_world = Ok (g, d) wb
    /\ get_generator_noise zero_stream 2 1 wb = Ok noise w1
    /\ is_batch 2 1 (value noise)
    /\ rng w1 = rng wb + 2 * 1
    /\ Generator_forward keep_all g noise w1 = Ok gen_output w2
    /\ (forall p, p ∈ parameters (gen g) -> p ∈ leaves (grad_fn gen_output))
    /\ Discriminator_forward keep_all d gen_output w2 = Ok disc_preds w2
    /\ get_generator_loss zero_stream keep_all g d BCEWithLogitsLoss 2 1 wb = Ok loss w2
    /\ item loss
       = F_bce_with_logits (value disc_preds) (ones_like_m (value disc_preds)).
Proof.
  destruct smallest_networks as [[[g d] wb] Hb]. cbn [fst snd] in Hb.
  destruct (get_generator_loss_fresh_noise_target_real zero_stream keep_all zero_stream
              1 image_size 1 empty_world g d wb 2 wb Hb)
    as (noise & w1 & gen_output & w2 & preds & loss
        & H1 & _ & H2 & H3 & H4 & H5 & H6 & H7 & H8 & _).
  - lia.
  - exists g, d, wb, noise, w1, gen_output, w2, preds, loss. auto 10.
Defined.

Lemma train_batch_discriminator_step_precedes_generator_loss_witness :
  exists g d wb disc_opt w1 wz' gen_loss wl' st' w',
    build_networks zero_stream 1 image_size 1 empty_world = Ok (g, d) wb
    /\ good_batch two_images
    /\ discriminator_update zero_stream keep_all zero_vjp g d 1
         (disc_optimizer unit (initial_loop g d 0%R unit))
         (constant (map (fun img => concat (concat img)) (fst two_images))) 2 wb
       = Ok (fst disc_opt, snd disc_opt) w1
    /\ zero_grad (gen_optimizer unit (initial_loop g d 0%R unit)) w1 = Ok tt wz'
    /\ (forall p, data <$> heap wz' !! p = data <$> heap w1 !! p)
    /\ get_generator_loss zero_stream keep_all g d criterion 2 1 wz' = Ok gen_loss wl'
    /\ train_batch zero_stream keep_all zero_vjp two_examples 2 g d 1 1 100 unit no_grid
         0 (initial_loop g d 0%R unit) two_images wb = Ok st' w'
    /\ D_losses unit st' = [(0 + item gen_loss / INR 2)%R].
Proof.
  destruct smallest_networks as [[[g d] wb] Hb]. cbn [fst snd] in Hb.
  destruct (train_batch_discriminator_step_precedes_generator_loss
              zero_stream keep_all zero_stream zero_vjp two_examples 2 g d 1 1 100 unit no_grid
              1 empty_world wb Hb 0 (initial_loop g d 0%R unit) two_images wb
              good_batch_two_images)
    as (flat & wz & dl & wl & wg & dopt & w1 & wz' & gl & wl' & gopt & w2 & st' & w'
        & H1 & H2 & H3 & H4 & H5 & H6 & H7 & H8 & H9 & H10 & H11 & H12).
  - lia.
  - exists g, d, wb, (dl, dopt), w1, wz', gl, wl', st', w'.
    split; [exact Hb|]. split; [exact good_batch_two_images|].
    injection H1 as <-.
    split.
    { unfold discriminator_update.
      rewrite (bind_ok _ _ _ _ _ H2), (bind_ok _ _ _ _ _ H3), (bind_ok _ _ _ _ _ H4),
        (bind_ok _ _ _ _ _ H5). reflexivity. }
    auto 10.
Defined.





(** C7 as stated fails: 60000 // 128 is 468, and the batch sampler cuts
    60,000 indices into 468 full batches of 128 followed by one batch of
    96; there are not 469 full batches. *)
Lemma sixty_thousand_examples_give_468_full_batches :
  60000 / 128 = 468
  /\ map length (BatchSampler (seq 0 60000) 128 false) = replicate 468 128 ++ [96]
  /\ length (filter (fun n => n =? 128) (map length (BatchSampler (seq 0 60000) 128 false)))
     = 468.
Proof.
  assert (H : map length (BatchSampler (seq 0 60000) 128 false) = replicate 468 128 ++ [96]).
  { rewrite BatchSampler_lengths by lia.
    rewrite length_seq, div_60000_128, mod_60000_128. reflexivity. }
  split; [exact div_60000_128|]. split; [exact H|].
  rewrite H. vm_compute. reflexivity.
Qed.

Lemma epoch_over_60000_examples_in_batches_of_128_witness :
  exists g d wb (hist : list (R * R)) st1 w1 st' w',
    build_networks zero_stream 1 image_size 1 empty_world = Ok (g, d) wb
    /\ length sixty_thousand_examples = 60000
    /\ map (fun b => length (fst b))
           (train_loader sixty_thousand_examples 128 (fun _ => seq 0 60000) 0)
       = replicate 468 128 ++ [96]
    /\ foldM (train_batch zero_stream keep_all zero_vjp sixty_thousand_examples 128 g d
                1 1 100 unit no_grid 0)
             (initial_loop g d 0%R unit)
             (train_loader sixty_thousand_examples 128 (fun _ => seq 0 60000) 0) wb
       = Ok st1 w1
    /\ length hist = 469
    /\ cur_step unit st1 = cur_step unit (initial_loop g d 0%R unit) + 469
    /\ train_epoch zero_stream keep_all zero_vjp sixty_thousand_examples 128
         (fun _ => seq 0 60000) g d 1 1 100 unit no_grid (initial_loop g d 0%R unit) 0 wb
       = Ok st' w'.
Proof.
  destruct smallest_networks as [[[g d] wb] Hb]. cbn [fst snd] in Hb.
  assert (Hlen : length sixty_thousand_examples = 60000) by apply repeat_length.
  destruct (epoch_over_60000_examples_in_batches_of_128
              zero_stream keep_all zero_stream zero_vjp sixty_thousand_examples 128
              (fun _ => seq 0 60000) g d 1 1 100 0%R unit no_grid 1 empty_world wb Hb
              0 (initial_loop g d 0%R unit) wb)
    as (H1 & _ & _ & hist & st1 & w1 & st' & w' & H2 & _ & H3 & H4 & H5).
  - reflexivity.
  - exact Hlen.
  - apply Forall_forall. intros ex Hex.
    apply list_elem_of_In, repeat_spec in Hex. subst ex. vm_compute. reflexivity.
  - intros e. rewrite Hlen. apply Permutation_refl.
  - lia.
  - exists g, d, wb, hist, st1, w1, st', w'. auto 10.
Defined.

Lemma train_batch_appends_under_swapped_names_witness :
  exists g d wb disc_loss disc_opt w1 gen_loss gen_opt w2 st' w',
    build_networks zero_stream 1 image_size 1 empty_world = Ok (g, d) wb
    /\ discriminator_update zero_stream keep_all zero_vjp g d 1
         (disc_optimizer unit (initial_loop g d 0%R unit))
         (constant (map (fun img => concat (concat img)) (fst two_images))) 2 wb
       = Ok (disc_loss, disc_opt) w1
    /\ generator_update zero_stream keep_all zero_vjp g d 1
         (gen_optimizer unit (initial_loop g d 0%R unit)) 2 w1 = Ok (gen_loss, gen_opt) w2
    /\ train_batch zero_stream keep_all zero_vjp two_examples 2 g d 1 1 100 unit no_grid
         0 (initial_loop g d 0%R unit) two_images wb = Ok st' w'
    /\ G_losses unit st' = [(0 + item disc_loss / INR 2)%R]
    /\ D_losses unit st' = [(0 + item gen_loss / INR 2)%R].
Proof.
  destruct smallest_networks as [[[g d] wb] Hb]. cbn [fst snd] in Hb.
  destruct (train_batch_appends_under_swapped_names
              zero_stream keep_all zero_stream zero_vjp two_examples 2 g d 1 1 100 unit no_grid
              1 empty_world wb Hb 0 (initial_loop g d 0%R unit) two_images wb
              good_batch_two_images)
    as (flat & dl & dopt & w1 & gl & gopt & w2 & st' & w' & H1 & H2 & H3 & H4 & H5 & H6).
  - lia.
  - injection H1 as <-. exists g, d, wb, dl, dopt, w1, gl, gopt, w2, st', w'. auto 10.
Defined.

Lemma first_batch_already_reports_witness :
  exists g d wb disc_loss gen_loss st' w' grid,
    build_networks zero_stream 1 image_size 1 empty_world = Ok (g, d) wb
    /\ train_batch zero_stream keep_all zero_vjp two_examples 2 g d 1 1 100 unit no_grid
         0 (initial_loop g d 0%R unit) two_images wb = Ok st' w'
    /\ stdout unit st'
       = [mkReport 0 1 0 (1 * loader_len (length two_examples) 2)
                   (item gen_loss / INR 2)%R (item disc_loss / INR 2)%R]
    /\ img_list unit st' = [grid].
Proof.
  destruct smallest_networks as [[[g d] wb] Hb]. cbn [fst snd] in Hb.
  destruct (first_batch_already_reports
              zero_stream keep_all zero_stream zero_vjp two_examples 2 g d 1 1 100 0%R
              unit no_grid 1 empty_world wb Hb 0 (initial_loop g d 0%R unit) two_images wb
              good_batch_two_images)
    as (flat & dl & dopt & w1 & gl & gopt & w2 & st' & w' & H1 & H2 & H3 & H4 & _ & _ & H5).
  - lia.
  - destruct (H5 eq_refl) as (_ & H6 & grid & H7).
    exists g, d, wb, dl, gl, st', w', grid. auto.
Defined.

Lemma training_loss_lists_are_running_sums_witness :
  exists g d wb (hist : list (R * R)) final w',
    build_networks zero_stream 1 image_size 1 empty_world = Ok (g, d) wb
    /\ training zero_stream keep_all zero_vjp two_examples 2 (fun _ => [0; 1]) g d
         3 1 2 0%R unit no_grid wb = Ok final w'
    /\ length hist = 3 * loader_len (length two_examples) 2
    /\ cur_step unit final = length hist
    /\ length (G_losses unit final) = length hist
    /\ length (D_losses unit final) = length hist
    /\ G_losses unit final = running_sums 2 0 0 (map fst hist)
    /\ D_losses unit final = running_sums 2 0 0 (map snd hist).
Proof.
  destruct smallest_networks as [[[g d] wb] Hb]. cbn [fst snd] in Hb.
  destruct (training_loss_lists_are_running_sums
              zero_stream keep_all zero_stream zero_vjp two_examples 2 (fun _ => [0; 1]) g d
              3 1 2 0%R unit no_grid 1 empty_world wb Hb)
    with (w := wb)
    as (hist & final & w' & H1 & _ & H2 & H3 & H4 & H5 & H6 & H7 & _).
  - repeat constructor; vm_compute; reflexivity.
  - intros e. apply Permutation_refl.
  - cbn. lia.
  - cbn. lia.
  - lia.
  - discriminate.
  - exists g, d, wb, hist, final, w'. auto 10.
Defined.

(** * The further properties at concrete inputs *)

(** The smallest discriminator: images of one pixel, hidden width 1. *)
Lemma smallest_discriminator :
  { p : Discriminator * World
  | Discriminator_init zero_stream 1 1 empty_world = Ok (fst p) (snd p) }.
Proof. eexists (_, _). vm_compute. reflexivity. Defined.

Lemma smallest_generator :
  { p : Generator * World
  | Generator_init zero_stream 1 1 1 empty_world = Ok (fst p) (snd p) }.
Proof. eexists (_, _). vm_compute. reflexivity. Defined.


Lemma two_examples_fit :
  Forall (fun ex => length (concat (concat (fst ex))) = image_size) two_examples.
Proof. repeat constructor; vm_compute; reflexivity. Qed.

Lemma Discriminator_forward_any_batch_size_witness :
  exists d w1 state,
    Discriminator_init zero_stream 1 1 empty_world = Ok d w1
    /\ Discriminator_forward keep_all d (constant [[0%R]]) w1 = Ok state w1
    /\ is_batch 1 1 (value state).
Proof.
  destruct smallest_discriminator as [[d w1] Hd]. cbn [fst snd] in Hd.
  destruct (Discriminator_forward_any_batch_size keep_all zero_stream 1 1 empty_world d w1
              1 (constant [[0%R]]) w1 Hd) as (state & H1 & H2).
  - split; [reflexivity | repeat constructor].
  - exists d, w1, state. auto.
Defined.

Lemma Generator_forward_rejects_wrong_latent_width_witness :
  exists g w1,
    Generator_init zero_stream 1 1 1 empty_world = Ok g w1
    /\ Generator_forward keep_all g (constant [[0%R; 0%R]; [0%R; 0%R]]) w1
       = Raise (RuntimeError "mat1 and mat2 shapes cannot be multiplied").
Proof.
  destruct smallest_generator as [[g w1] Hg]. cbn [fst snd] in Hg.
  exists g, w1. split; [exact Hg|].
  apply (Generator_forward_rejects_wrong_latent_width keep_all zero_stream 1 1 1 empty_world
           g w1 (constant [[0%R; 0%R]; [0%R; 0%R]]) w1 Hg).
  apply Exists_cons_hd. cbn [length]. lia.
Defined.

Lemma Discriminator_forward_rejects_wrong_image_width_witness :
  exists d w1,
    Discriminator_init zero_stream 1 1 empty_world = Ok d w1
    /\ Discriminator_forward keep_all d (constant [[0%R; 0%R]]) w1
       = Raise (RuntimeError "mat1 and mat2 shapes cannot be multiplied").
Proof.
  destruct smallest_discriminator as [[d w1] Hd]. cbn [fst snd] in Hd.
  exists d, w1. split; [exact Hd|].
  apply (Discriminator_forward_rejects_wrong_image_width keep_all zero_stream 1 1 empty_world
           d w1 (constant [[0%R; 0%R]]) w1 Hd).
  apply Exists_cons_hd. cbn [length]. lia.
Defined.

Lemma build_networks_parameters_are_distinct_witness :
  exists g d wb,
    build_networks zero_stream 1 image_size 1 empty_world = Ok (g, d) wb
    /\ length (parameters (gen g)) = 18
    /\ length (parameters (disc d)) = 8
    /\ NoDup (parameters (gen g) ++ parameters (disc d)).
Proof.
  destruct smallest_networks as [[[g d] wb] Hb]. cbn [fst snd] in Hb.
  exists g, d, wb. split; [exact Hb|].
  exact (build_networks_parameters_are_distinct zero_stream 1 image_size 1 empty_world
           g d wb Hb).
Defined.

Lemma train_loader_visits_every_example_once_witness :
  Permutation (concat (map fst (train_loader three_examples 2 (fun _ => [2; 0; 1]) 0)))
              (map fst three_examples)
  /\ Permutation (concat (map snd (train_loader three_examples 2 (fun _ => [2; 0; 1]) 0)))
                 (map snd three_examples)
  /\ Forall (fun b => 1 <= length (fst b) <= 2 /\ length (snd b) = length (fst b))
            (train_loader three_examples 2 (fun _ => [2; 0; 1]) 0)
  /\ length (train_loader three_examples 2 (fun _ => [2; 0; 1]) 0)
     = loader_len (length three_examples) 2.
Proof.
  apply (train_loader_visits_every_example_once three_examples 2 (fun _ => [2; 0; 1]) 0).
  - discriminate.
  - lia.
  - change (Permutation [2; 0; 1] [0; 1; 2]).
    exact (Permutation_cons_append [0; 1] 2).
Defined.



Lemma snapshot_is_grid_of_first_36_generated_images_witness :
  exists g d wb fake st' w',
    build_networks zero_stream 1 image_size 1 empty_world = Ok (g, d) wb
    /\ is_batch 2 image_size (value fake)
    /\ train_batch zero_stream keep_all zero_vjp two_examples 2 g d 1 1 100 unit no_grid
         0 (initial_loop g d 0%R unit) two_images wb = Ok st' w'
    /\ img_list unit st' = [no_grid (take 36 (value fake)) 6].
Proof.
  destruct smallest_networks as [[[g d] wb] Hb]. cbn [fst snd] in Hb.
  destruct (snapshot_is_grid_of_first_36_generated_images
              zero_stream keep_all zero_stream zero_vjp two_examples 2 g d 1 1 100 unit no_grid
              1 empty_world wb Hb 0 (initial_loop g d 0%R unit) two_images wb
              good_batch_two_images)
    as (flat & dl & dopt & w1 & gl & gopt & w2 & noise & w3 & fake & st' & w'
        & _ & _ & _ & _ & _ & H1 & H2 & H3).
  - lia.
  - reflexivity.
  - exists g, d, wb, fake, st', w'. auto.
Defined.

Lemma generator_loss_sees_updated_discriminator_witness :
  exists g d wb disc_opt w1 wz' gen_loss wl' st' w',
    build_networks zero_stream 1 image_size 1 empty_world = Ok (g, d) wb
    /\ zero_grad (gen_optimizer unit (initial_loop g d 0%R unit)) w1 = Ok tt wz'
    /\ get_generator_loss zero_stream keep_all g d criterion 2 1 wz' = Ok gen_loss wl'
    /\ train_batch zero_stream keep_all zero_vjp two_examples 2 g d 1 1 100 unit no_grid
         0 (initial_loop g d 0%R unit) two_images wb = Ok st' w'
    /\ forall p c, p ∈ parameters (disc d) -> heap wb !! p = Some c ->
         exists gr,
           state disc_opt !! p
           = Some (adam_moments
                     (adam_state_of (disc_optimizer unit (initial_loop g d 0%R unit)) p c) gr)
           /\ data <$> heap wz' !! p
              = Some (adam_update 0%R
                        (adam_moments
                           (adam_state_of (disc_optimizer unit (initial_loop g d 0%R unit)) p c)
                           gr)
                        (data c)).
Proof.
  destruct smallest_networks as [[[g d] wb] Hb]. cbn [fst snd] in Hb.
  destruct (generator_loss_sees_updated_discriminator
              zero_stream keep_all zero_stream zero_vjp two_examples 2 g d 1 1 100 unit no_grid
              1 empty_world wb Hb 0 (initial_loop g d 0%R unit) two_images wb
              good_batch_two_images)
    as (flat & dl & dopt & w1 & wz' & gl & wl' & st' & w' & _ & _ & H1 & H2 & H3 & _ & H4).
  - lia.
  - reflexivity.
  - exists g, d, wb, dopt, w1, wz', gl, wl', st', w'. auto 10.
Defined.


Lemma training_reports_at_multiples_of_display_step_witness :
  exists g d wb final w',
    build_networks zero_stream 1 image_size 1 empty_world = Ok (g, d) wb
    /\ training zero_stream keep_all zero_vjp two_examples 2 (fun _ => [0; 1]) g d
         3 1 2 0%R unit no_grid wb = Ok final w'
    /\ map report_step (stdout unit final) = [0; 2]
    /\ map report_epoch (stdout unit final) = [0; 2]
    /\ length (img_list unit final) = 2.
Proof.
  destruct smallest_networks as [[[g d] wb] Hb]. cbn [fst snd] in Hb.
  destruct (training_reports_at_multiples_of_display_step
              zero_stream keep_all zero_stream zero_vjp two_examples 2 (fun _ => [0; 1]) g d
              3 1 2 0%R unit no_grid 1 empty_world wb Hb two_examples_fit)
    with (w := wb)
    as (final & w' & H1 & H2 & H3 & H4 & H5).
  - intros e. apply Permutation_refl.
  - lia.
  - cbn. lia.
  - lia.
  - discriminate.
  - exists g, d, wb, final, w'. split; [exact Hb|]. split; [exact H1|].
    split; [exact H2|]. split; [|rewrite H5, H3; reflexivity].
    change (display_steps 2 (3 * loader_len (length two_examples) 2)) with [0; 2] in H2.
    destruct (stdout unit final) as [|r1 [|r2 [|r3 rest]]]; try discriminate H2.
    injection H2 as E1 E2.
    apply Forall_cons_1 in H4 as [(A1 & _) H4]. apply Forall_cons_1 in H4 as [(A2 & _) _].
    cbn [map]. rewrite A1, A2, E1, E2. reflexivity.
Defined.

Lemma training_shows_figures_every_third_epoch_witness :
  exists g d wb final w',
    build_networks zero_stream 1 image_size 1 empty_world = Ok (g, d) wb
    /\ training zero_stream keep_all zero_vjp two_examples 2 (fun _ => [0; 1]) g d
         4 1 2 0%R unit no_grid wb = Ok final w'
    /\ length (figures unit final) = 2.
Proof.
  destruct smallest_networks as [[[g d] wb] Hb]. cbn [fst snd] in Hb.
  destruct (training_shows_figures_every_third_epoch
              zero_stream keep_all zero_stream zero_vjp two_examples 2 (fun _ => [0; 1]) g d
              4 1 2 0%R unit no_grid 1 empty_world wb Hb two_examples_fit)
    with (w := wb)
    as (final & w' & H1 & H2 & H3).
  - intros e. apply Permutation_refl.
  - lia.
  - cbn. lia.
  - lia.
  - discriminate.
  - exists g, d, wb, final, w'. auto.
Defined.

Lemma training_steps_each_optimizer_once_per_batch_witness :
  exists g d wb final w',
    build_networks zero_stream 1 image_size 1 empty_world = Ok (g, d) wb
    /\ training zero_stream keep_all zero_vjp two_examples 2 (fun _ => [0; 1]) g d
         3 1 2 0%R unit no_grid wb = Ok final w'
    /\ (forall p, p ∈ parameters (disc d) -> steps_taken (disc_optimizer unit final) p = 3)
    /\ (forall p, p ∈ parameters (gen g) -> steps_taken (gen_optimizer unit final) p = 3)
    /\ (forall p, p ∈ parameters (gen g) -> state (disc_optimizer unit final) !! p = None)
    /\ (forall p, p ∈ parameters (disc d) -> state (gen_optimizer unit final) !! p = None).
Proof.
  destruct smallest_networks as [[[g d] wb] Hb]. cbn [fst snd] in Hb.
  destruct (training_steps_each_optimizer_once_per_batch
              zero_stream keep_all zero_stream zero_vjp two_examples 2 (fun _ => [0; 1]) g d
              3 1 2 0%R unit no_grid 1 empty_world wb Hb two_examples_fit)
    with (w := wb)
    as (final & w' & H1 & H2 & H3 & H4 & H5).
  - intros e. apply Permutation_refl.
  - lia.
  - cbn. lia.
  - lia.
  - discriminate.
  - exact (build_networks_parameters_alive _ _ _ _ _ _ _ _ Hb).
  - exists g, d, wb, final, w'. auto 10.
Defined.
